(** * Playlist management of the Discord music bot

    A shallow embedding of [discord_bot/cogs/playlist.py] (the command
    handlers of [PlaylistGroup] and the JSON persistence of the store) and
    of the data classes of [discord_bot/utils/sources/__init__.py].

    Python values are modelled as follows.
    - A [dict] is an insertion-ordered association list ([PyDict]): a new key
      goes last, an existing key keeps its position, iteration follows the
      list.
    - The top-level dictionary [self.playlists] is indexed by the handlers
      both with [str(interaction.guild_id)] and with the raw integer
      [interaction.guild_id]; the two are different Python keys, so a key is
      a [key]: [KStr] or [KInt].
    - Python integers are [Z]; list indices may be negative, as in Python.
      [interaction.guild_id] is an integer: the commands are invoked in a
      guild.
    - [playlists.json] is held as the JSON document it contains; the text
      that [json.dump] prints and [json.load] parses is the library's own
      matter, the conversion of dictionary keys to strings is modelled.
    - A handler is a computation in the monad [M]: it threads the bot state
      (the in-memory dictionary and the content of [playlists.json]), logs
      what it sends on the interaction, and may raise [KeyError] or
      [IndexError]. *)

From Stdlib Require Import ZArith List String Ascii Bool Lia DecimalString.
From Stdlib Require Import Permutation.
Import ListNotations.
Open Scope string_scope.
Open Scope Z_scope.

(** ** Insertion-ordered dictionaries *)

Module PyDict.
Section Dict.
Context {K V : Type}.
Variable eqb : K -> K -> bool.

Definition dict := list (K * V).

Definition keys (d : dict) : list K := map fst d.
Definition values (d : dict) : list V := map snd d.

(** [d.get(k)] *)
Fixpoint get (d : dict) (k : K) : option V :=
  match d with
  | [] => None
  | (k', v) :: d' => if eqb k k' then Some v else get d' k
  end.

(** [k in d] *)
Definition contains (d : dict) (k : K) : bool :=
  match get d k with Some _ => true | None => false end.

(** [d[k] = v] *)
Fixpoint set (d : dict) (k : K) (v : V) : dict :=
  match d with
  | [] => [(k, v)]
  | (k', v') :: d' =>
      if eqb k k' then (k', v) :: d' else (k', v') :: set d' k v
  end.

(** [del d[k]], once the key is known to be present *)
Fixpoint remove (d : dict) (k : K) : dict :=
  match d with
  | [] => []
  | (k', v') :: d' =>
      if eqb k k' then remove d' k else (k', v') :: remove d' k
  end.

(** [dict(pairs)]: later pairs overwrite earlier ones *)
Definition of_pairs (l : list (K * V)) : dict :=
  fold_left (fun d kv => set d (fst kv) (snd kv)) l [].
End Dict.
End PyDict.

(** ** Python lists and integers *)

(** The position a Python index denotes in a list of length [len]:
    a negative index counts from the end; [None] is [IndexError]. *)
Definition py_index (len : nat) (i : Z) : option nat :=
  let j := if i <? 0 then i + Z.of_nat len else i in
  if (0 <=? j) && (j <? Z.of_nat len) then Some (Z.to_nat j) else None.

Fixpoint drop_nth {A} (n : nat) (l : list A) : list A :=
  match l, n with
  | [], _ => []
  | _ :: l', O => l'
  | x :: l', S n' => x :: drop_nth n' l'
  end.

(** [str(n)] for an integer *)
Definition str_int (n : Z) : string := NilZero.string_of_int (Z.to_int n).

(** [sum(l)] accumulates from 0, left to right *)
Definition py_sum (l : list Z) : Z := fold_left Z.add l 0.

(** [sep.join(l)] *)
Definition join (sep : string) (l : list string) : string := String.concat sep l.

Definition newline : string := String (ascii_of_nat 10) EmptyString.

(** [enumerate(l, start)] *)
Fixpoint enumerate {A} (l : list A) (start : Z) : list (Z * A) :=
  match l with
  | [] => []
  | x :: l' => (start, x) :: enumerate l' (start + 1)
  end.

(** [a in b] for two strings: [a] occurs in [b]. *)
Fixpoint is_substring (a b : string) : bool :=
  if String.prefix a b then true
  else match b with
       | EmptyString => false
       | String _ b' => is_substring a b'
       end.

(** The argument of [sum]: an integer is not iterable. *)
Inductive type_error := TypeError (msg : string).

Inductive summand := AnInt (n : Z) | AList (l : list Z).

(** [iter(o)] *)
Definition py_iter (o : summand) : type_error + list Z :=
  match o with
  | AnInt _ => inl (TypeError "'int' object is not iterable")
  | AList l => inr l
  end.

(** [sum(o)] for an argument that need not be a list *)
Definition py_sum_of (o : summand) : type_error + Z :=
  match py_iter o with
  | inl e => inl e
  | inr l => inr (py_sum l)
  end.

(** ** utils/sources: Track and Playlist *)

Module Sources.
Section Sources.
(** The audio source handle is opaque to the playlist code. *)
Variable FFmpegPCMAudio : Type.

Record Track := {
  title : string;
  duration : Z;
  webpage_url : string;
  audio_url : FFmpegPCMAudio;
  thumbnail : option string
}.

(** [Track.__str__] *)
Definition Track_str (t : Track) : string :=
  "Title: [" ++ title t ++ "](<" ++ webpage_url t ++ ">)" ++ newline
    ++ "Duration: " ++ str_int (duration t) ++ "s".

Record Playlist := {
  p_title : string;
  p_webpage_url : string;
  tracks : list Track
}.

(** The [duration] property of [Playlist]. *)
Definition Playlist_duration (p : Playlist) : Z :=
  py_sum (map duration (tracks p)).

(** [Track.__repr__] *)
Definition Track_repr (t : Track) : string := title t.

(** The [length] property of [Playlist]: [sum(len(self.tracks))]. *)
Definition Playlist_length (p : Playlist) : type_error + Z :=
  py_sum_of (AnInt (Z.of_nat (List.length (tracks p)))).

(** [Playlist.__repr__] *)
Definition Playlist_repr (p : Playlist) : string := p_title p.

(** [Playlist.__str__]: the text is built from the title, the url, the
    duration and the length. *)
Definition Playlist_str (p : Playlist) : type_error + string :=
  match Playlist_length p with
  | inl e => inl e
  | inr n =>
      inr ("Playlist Title: [" ++ p_title p ++ "](<" ++ p_webpage_url p ++ ">)" ++ newline
           ++ "Duration: " ++ str_int (Playlist_duration p) ++ "s" ++ newline
           ++ "Songs Count: " ++ str_int n)
  end.
End Sources.
End Sources.

(** ** The store and its JSON document *)

Inductive key := KStr (s : string) | KInt (n : Z).

Definition key_eqb (a b : key) : bool :=
  match a, b with
  | KStr s, KStr t => String.eqb s t
  | KInt n, KInt m => Z.eqb n m
  | _, _ => false
  end.

(** playlist name -> track urls, of one guild *)
Definition guild_playlists := @PyDict.dict string (list string).
(** [self.playlists] *)
Definition store := @PyDict.dict key guild_playlists.

Abbreviation sget := (PyDict.get String.eqb).
Abbreviation sset := (PyDict.set String.eqb).
Abbreviation sremove := (PyDict.remove String.eqb).
Abbreviation scontains := (PyDict.contains String.eqb).
Abbreviation kget := (PyDict.get key_eqb).
Abbreviation kset := (PyDict.set key_eqb).
Abbreviation kcontains := (PyDict.contains key_eqb).

(** The part of JSON that [json.dump] produces from the store. *)
#[local] Set Warnings "-register-all".
Inductive json :=
| JString (s : string)
| JArray (items : list json)
| JObject (members : list (string * json)).

(** [json.dump] writes a [str] key as it is and an [int] key as its decimal
    string. *)
Definition json_key (k : key) : string :=
  match k with KStr s => s | KInt n => str_int n end.

Definition tracks_to_json (l : list string) : json := JArray (map JString l).

Definition guild_to_json (g : guild_playlists) : json :=
  JObject (map (fun e => (fst e, tracks_to_json (snd e))) g).

(** The document [json.dump(self.playlists, f, indent=4)] writes; the
    indentation only affects the text. *)
Definition to_json (ps : store) : json :=
  JObject (map (fun e => (json_key (fst e), guild_to_json (snd e))) ps).

Fixpoint option_all {A} (l : list (option A)) : option (list A) :=
  match l with
  | [] => Some []
  | None :: _ => None
  | Some x :: l' =>
      match option_all l' with Some r => Some (x :: r) | None => None end
  end.

Definition tracks_of_json (j : json) : option (list string) :=
  match j with
  | JArray items =>
      option_all (map (fun i => match i with JString s => Some s | _ => None end) items)
  | _ => None
  end.

Definition guild_of_json (j : json) : option guild_playlists :=
  match j with
  | JObject ms =>
      match option_all (map (fun m => option_map (pair (fst m)) (tracks_of_json (snd m))) ms) with
      | Some l => Some (PyDict.of_pairs String.eqb l)
      | None => None
      end
  | _ => None
  end.

(** What [json.load] returns for a document: every object becomes a [dict]
    with [str] keys, filled member by member. [None] stands for a document
    that is not a store (an object of objects of arrays of strings). *)
Definition of_json (j : json) : option store :=
  match j with
  | JObject ms =>
      match option_all (map (fun m => option_map (pair (KStr (fst m))) (guild_of_json (snd m))) ms) with
      | Some l => Some (PyDict.of_pairs key_eqb l)
      | None => None
      end
  | _ => None
  end.

(** ** Bot state, interaction events and the handler monad *)

Record bot := {
  playlists : store;          (* self.playlists *)
  file : option json          (* content of playlists.json, None: no file *)
}.

Record embed := {
  e_title : string;
  e_description : string;
  e_thumbnail : option string
}.

Inductive event :=
| Defer                               (* interaction.response.defer() *)
| SendMessage (content : string)      (* interaction.response.send_message(content) *)
| SendEmbed (e : embed)               (* interaction.response.send_message(embed=e) *)
| FollowupSend (content : string)     (* interaction.followup.send(content) *)
| FollowupEmbed (e : embed).          (* interaction.followup.send(embed=e) *)

Inductive exn :=
| KeyError (k : key)
| IndexError
| AppCommandError (msg : string).

Inductive result (A : Type) := Ok (a : A) | Raise (e : exn).
Arguments Ok {A} a.
Arguments Raise {A} e.

Definition M (A : Type) := bot -> bot * list event * result A.

Definition ret {A} (a : A) : M A := fun b => (b, [], Ok a).

Definition bind {A B} (m : M A) (f : A -> M B) : M B :=
  fun b =>
    match m b with
    | (b1, l1, Ok a) =>
        match f a b1 with (b2, l2, r) => (b2, (l1 ++ l2)%list, r) end
    | (b1, l1, Raise e) => (b1, l1, Raise e)
    end.

Definition raise {A} (e : exn) : M A := fun b => (b, [], Raise e).

Notation "x <- m ;; k" := (bind m (fun x => k))
  (at level 61, m at next level, right associativity).
Notation "m ;; k" := (bind m (fun _ => k))
  (at level 61, right associativity).

Definition emit (e : event) : M unit := fun b => (b, [e], Ok tt).

Definition get_playlists : M store := fun b => (b, [], Ok (playlists b)).

Definition put_playlists (ps : store) : M unit :=
  fun b => ({| playlists := ps; file := file b |}, [], Ok tt).

Fixpoint mapM {A B} (f : A -> M B) (l : list A) : M (list B) :=
  match l with
  | [] => ret []
  | x :: l' => y <- f x ;; ys <- mapM f l' ;; ret (y :: ys)
  end.

(** Final state, events sent and result of a handler. *)
Definition final {A} (r : bot * list event * result A) : bot := fst (fst r).
Definition sent {A} (r : bot * list event * result A) : list event := snd (fst r).
Definition outcome {A} (r : bot * list event * result A) : result A := snd r.

(** ** Reading and updating [self.playlists] in place *)

(** [d[k]] raises [KeyError] for a missing key. *)
Definition subscript {A} (o : option A) (k : key) : M A :=
  match o with Some a => ret a | None => raise (KeyError k) end.

(** [self.playlists[k]] *)
Definition guild_at (k : key) : M guild_playlists :=
  ps <- get_playlists ;; subscript (kget ps k) k.

(** [self.playlists[k][name]] *)
Definition tracks_at (k : key) (name : string) : M (list string) :=
  g <- guild_at k ;; subscript (sget g name) (KStr name).

(** [self.playlists[k] = g] *)
Definition set_guild (k : key) (g : guild_playlists) : M unit :=
  ps <- get_playlists ;; put_playlists (kset ps k g).

(** [self.playlists[k][name] = l] *)
Definition set_tracks (k : key) (name : string) (l : list string) : M unit :=
  g <- guild_at k ;; set_guild k (sset g name l).

(** [del self.playlists[k][name]] *)
Definition del_playlist (k : key) (name : string) : M unit :=
  g <- guild_at k ;;
  _ <- subscript (sget g name) (KStr name) ;;
  set_guild k (sremove g name).

(** [self.playlists[k].pop(name)] *)
Definition pop_playlist (k : key) (name : string) : M (list string) :=
  g <- guild_at k ;;
  l <- subscript (sget g name) (KStr name) ;;
  set_guild k (sremove g name) ;;
  ret l.

(** [self.playlists[k][name].append(url)] *)
Definition append_track (k : key) (name url : string) : M unit :=
  l <- tracks_at k name ;; set_tracks k name (l ++ [url])%list.

(** [del self.playlists[k][name][i]] *)
Definition del_track (k : key) (name : string) (i : Z) : M unit :=
  l <- tracks_at k name ;;
  match py_index (List.length l) i with
  | Some n => set_tracks k name (drop_nth n l)
  | None => raise IndexError
  end.

(** [self.playlists[k][name][i]] *)
Definition track_at (k : key) (name : string) (i : Z) : M string :=
  l <- tracks_at k name ;;
  match py_index (List.length l) i with
  | Some n =>
      match nth_error l n with Some u => ret u | None => raise IndexError end
  | None => raise IndexError
  end.

(** Truth value of a container: empty is false. *)
Definition nonempty {A} (l : list A) : bool :=
  match l with [] => false | _ :: _ => true end.

(** Truth value of an optional container ([d.get(k)], an optional string):
    [None] and empty are false. *)
Definition truthy {A} (o : option (list A)) : bool :=
  match o with Some l => nonempty l | None => false end.

Definition truthy_str (o : option string) : bool :=
  match o with Some EmptyString | None => false | Some _ => true end.

(** ** PlaylistTransformer *)

Module PlaylistTransformer.

(** [transform]: the name is accepted when the guild has a playlist of that
    name. *)
Definition transform (guild : Z) (value : string) : M string :=
  let guild_id := str_int guild in
  ps <- get_playlists ;;
  if kcontains ps (KStr guild_id) then
    g <- guild_at (KStr guild_id) ;;
    if scontains g value then ret value
    else raise (AppCommandError ("Playlist '" ++ value ++ "' does not exist."))
  else raise (AppCommandError ("Playlist '" ++ value ++ "' does not exist.")).

(** [app_commands.Choice(name=..., value=...)] *)
Record Choice := { c_name : string; c_value : string }.

Section Autocomplete.
(** [str.lower] *)
Variable lower : string -> string.

(** [autocomplete]: the names of the guild's playlists that contain the
    typed text, both in lower case. *)
Definition autocomplete (guild : Z) (current : string) : M (list Choice) :=
  let guild_id := str_int guild in
  ps <- get_playlists ;;
  if negb (kcontains ps (KStr guild_id)) then ret []
  else
    g <- guild_at (KStr guild_id) ;;
    ret (map (fun name => {| c_name := name; c_value := name |})
             (filter (fun name => is_substring (lower current) (lower name))
                     (PyDict.keys g))).
End Autocomplete.

End PlaylistTransformer.

(** ** PlaylistGroup *)

Module PlaylistGroup.

(** [__load_playlists]: the file's document, or an empty dictionary when
    there is no file. *)
Definition load_playlists (f : option json) : option store :=
  match f with
  | Some j => of_json j
  | None => Some []
  end.

(** [__save_playlists] *)
Definition save_playlists : M unit :=
  fun b => ({| playlists := playlists b; file := Some (to_json (playlists b)) |}, [], Ok tt).

(** [__init__]: the state of a bot started on a given file. *)
Definition init (f : option json) : option bot :=
  option_map (fun ps => {| playlists := ps; file := f |}) (load_playlists f).

Definition format_row (r : Z * string * nat) : string :=
  let '(i, playlist, n) := r in
  str_int i ++ ". " ++ playlist ++ " - " ++ str_int (Z.of_nat n) ++ " tracks".

(** The rows of the listing: position, name and track count of each key of
    [self.playlists[guild_id]], in iteration order. *)
Definition list_rows (guild_id : string) : M (list (Z * string * nat)) :=
  g <- guild_at (KStr guild_id) ;;
  mapM (fun ip =>
          l <- tracks_at (KStr guild_id) (snd ip) ;;
          ret (fst ip, snd ip, List.length l))
       (enumerate (PyDict.keys g) 1).

Definition list_playlist (guild : Z) : M unit :=
  let guild_id := str_int guild in
  ps <- get_playlists ;;
  if negb (nonempty ps) then
    emit (SendMessage "No saved playlists found. Create your own by with `playlist create <name>`")
  else
    rows <- list_rows guild_id ;;
    emit (SendEmbed {| e_title := "Saved playlists";
                       e_description := join newline (map format_row rows);
                       e_thumbnail := None |}).

Definition create_playlist (guild : Z) (name : string) : M unit :=
  let guild_id := str_int guild in
  ps <- get_playlists ;;
  if kcontains ps (KStr name) then
    emit (SendMessage "Playlist already exists.")
  else
    (if negb (truthy (kget ps (KInt guild)))
     then set_guild (KStr guild_id) []
     else ret tt) ;;
    set_tracks (KStr guild_id) name [] ;;
    save_playlists ;;
    emit (SendMessage ("Created playlist " ++ name ++ ".")).

Definition delete_playlist (guild : Z) (name : string) : M unit :=
  let guild_id := str_int guild in
  ps <- get_playlists ;;
  if negb (kcontains ps (KStr name)) then
    emit (SendMessage "Playlist does not exist.")
  else
    del_playlist (KStr guild_id) name ;;
    save_playlists ;;
    emit (SendMessage ("Deleted playlist " ++ name ++ ".")).

Definition rename_playlist (guild : Z) (name new_name : string) : M unit :=
  ps <- get_playlists ;;
  if negb (kcontains ps (KStr name)) then
    emit (SendMessage "Playlist does not exist.")
  else
    g <- guild_at (KInt guild) ;;
    if scontains g new_name then
      emit (SendMessage ("A playlist with the name " ++ new_name ++ " already exists."))
    else
      l <- pop_playlist (KInt guild) name ;;
      set_tracks (KInt guild) new_name l ;;
      save_playlists ;;
      emit (SendMessage ("Renamed playlist " ++ name ++ " to " ++ new_name ++ ".")).

Section Resolver.
Variable FFmpegPCMAudio : Type.
(** [YTSource().fetch_track_by_url]: the track of a url, or [None]. *)
Variable fetch_track_by_url : string -> option (Sources.Track FFmpegPCMAudio).

Definition add_to_playlist (guild : Z) (name track_url : string) : M unit :=
  emit Defer ;;
  g <- guild_at (KInt guild) ;;
  if negb (scontains g name) then
    emit (FollowupSend "Playlist does not exist.")
  else
    match fetch_track_by_url track_url with
    | None => emit (FollowupSend "Track not found.")
    | Some track =>
        append_track (KInt guild) name track_url ;;
        save_playlists ;;
        let response_text := Sources.Track_str _ track in
        let thumbnail := Sources.thumbnail _ track in
        emit (FollowupEmbed
                {| e_title := "Added to the playlist " ++ name;
                   e_description := response_text;
                   e_thumbnail := if truthy_str thumbnail then thumbnail else None |})
    end.
End Resolver.

Definition remove_from_playlist (guild : Z) (name : string) (track_id : Z) : M unit :=
  let guild_id := str_int guild in
  g <- guild_at (KStr guild_id) ;;
  if negb (scontains g name) then
    emit (SendMessage "Playlist does not exist.")
  else
    rejected <- (if 0 >? track_id - 1
                 then l <- tracks_at (KStr guild_id) name ;;
                      ret (track_id - 1 >? Z.of_nat (List.length l))
                 else ret false) ;;
    if (rejected : bool) then
      emit (SendMessage "Track not found in playlist.")
    else
      del_track (KStr guild_id) name (track_id - 1) ;;
      l <- tracks_at (KStr guild_id) name ;;
      (if negb (nonempty l) then del_playlist (KStr guild_id) name else ret tt) ;;
      save_playlists ;;
      u <- track_at (KStr guild_id) name (track_id - 1) ;;
      emit (SendMessage ("Removed " ++ u ++ " from the playlist " ++ name ++ ".")).

End PlaylistGroup.


(** ** Example states *)

(** A bot started on a file in which guild 1 has the playlists [g]. *)
Definition guild1 (g : guild_playlists) : bot :=
  {| playlists := [(KStr "1", g)];
     file := Some (to_json [(KStr "1", g)]) |}.

(** A track the resolver returns for ["https://example/a"]. *)
Definition track_a : Sources.Track unit :=
  {| Sources.title := "A";
     Sources.duration := 180;
     Sources.webpage_url := "https://example/a";
     Sources.audio_url := tt;
     Sources.thumbnail := None |}.

(** ** Commands and reachable states *)

Section Reachable.
Variable FFmpegPCMAudio : Type.

(** One invocation of a handler. The answer of the track resolver belongs
    to the invocation: the resolver is outside the bot. *)
Inductive command :=
| List (guild : Z)
| Create (guild : Z) (name : string)
| Delete (guild : Z) (name : string)
| Rename (guild : Z) (name new_name : string)
| Add (guild : Z) (name track_url : string)
      (resolved : option (Sources.Track FFmpegPCMAudio))
| Remove (guild : Z) (name : string) (track_id : Z).

Definition handle (c : command) : M unit :=
  match c with
  | List g => PlaylistGroup.list_playlist g
  | Create g n => PlaylistGroup.create_playlist g n
  | Delete g n => PlaylistGroup.delete_playlist g n
  | Rename g n n' => PlaylistGroup.rename_playlist g n n'
  | Add g n u r => PlaylistGroup.add_to_playlist FFmpegPCMAudio (fun _ => r) g n u
  | Remove g n i => PlaylistGroup.remove_from_playlist g n i
  end.

(** The states of a bot that was started on some file (or on none) and
    has since handled any sequence of commands. *)
Inductive reachable : bot -> Prop :=
| reach_init f b : PlaylistGroup.init f = Some b -> reachable b
| reach_step b c : reachable b -> reachable (final (handle c b)).
End Reachable.

Arguments reach_init {FFmpegPCMAudio} f b _.
Arguments reach_step {FFmpegPCMAudio} b c _.

(** ** Definitions used by the statements *)

(** The sum of the [duration] fields of a list of tracks. *)
Fixpoint total_duration {A} (l : list (Sources.Track A)) : Z :=
  match l with
  | [] => 0
  | t :: l' => Sources.duration A t + total_duration l'
  end.

Definition str_key (k : key) : Prop :=
  match k with KStr _ => True | KInt _ => False end.

(** A Python dictionary holds a key once. *)
Definition wf_guild (g : guild_playlists) : Prop := NoDup (PyDict.keys g).

(** The stores that [json.load] can return: dictionaries whose top-level
    keys are all strings. *)
Definition wf_store (ps : store) : Prop :=
  Forall str_key (PyDict.keys ps) /\
  NoDup (PyDict.keys ps) /\
  Forall wf_guild (PyDict.values ps).

Definition preserves {A} (m : M A) : Prop :=
  forall b, wf_store (playlists b) -> wf_store (playlists (final (m b))).

(** The (name, track count) pairs of a guild's playlists, in iteration
    order, numbered from 1. *)
Definition rows_of (g : guild_playlists) : list (Z * string * nat) :=
  map (fun ie => (fst ie, fst (snd ie), List.length (snd (snd ie)))) (enumerate g 1).

Definition row_names (rows : list (Z * string * nat)) : list string :=
  map (fun r => snd (fst r)) rows.

(** The track count the listing shows for a name. *)
Definition count_of (g : guild_playlists) (name : string) : nat :=
  match sget g name with Some l => List.length l | None => O end.

(** The result of a computation that ran after the events [l1] were sent. *)
Definition after {A} (l1 : list event) (r : bot * list event * result A)
  : bot * list event * result A :=
  (final r, (l1 ++ sent r)%list, outcome r).

(** The embed [list_playlist] sends for given rows. *)
Definition listing (rows : list (Z * string * nat)) : event :=
  SendEmbed {| e_title := "Saved playlists";
               e_description := join newline (map PlaylistGroup.format_row rows);
               e_thumbnail := None |}.

(** A bot started without a [playlists.json]. *)
Definition fresh : bot := {| playlists := []; file := None |}.

(** A bot started on a [playlists.json] that holds the store [ps]. *)
Definition started_on (ps : store) : bot :=
  {| playlists := ps; file := Some (to_json ps) |}.

(** The guild a command is invoked in. *)
Definition guild_of {A} (c : command A) : Z :=
  match c with
  | List _ g | Create _ g _ | Delete _ g _ | Rename _ g _ _
  | Add _ g _ _ _ | Remove _ g _ _ => g
  end.

(** The state after a sequence of commands. *)
Definition run {A} (cs : list (command A)) (b : bot) : bot :=
  fold_left (fun b c => final (handle A c b)) cs b.

(** The two keys under which the handlers look for a guild. *)
Definition own_key (guild : Z) (k : key) : Prop :=
  k = KStr (str_int guild) \/ k = KInt guild.

(** A guild with at most one playlist, which has no track. *)
Definition bare_guild (g : guild_playlists) : Prop :=
  (List.length g <= 1)%nat /\ Forall (fun e => snd e = []) g.

Definition bare_store (ps : store) : Prop :=
  Forall bare_guild (PyDict.values ps).

(** The messages among the events: [defer] is not an answer. *)
Definition answers (l : list event) : list event :=
  filter (fun e => match e with Defer => false | _ => true end) l.

(** ** Facts about dictionaries *)

Section DictFacts.
Context {K V : Type}.
Variable eqb : K -> K -> bool.
Hypothesis eqb_eq : forall a b, eqb a b = true <-> a = b.

Lemma eqb_refl k : eqb k k = true.
Proof. now apply eqb_eq. Qed.

Lemma eqb_neq a b : a <> b -> eqb a b = false.
Proof.
  intros H. destruct (eqb a b) eqn:E; [|reflexivity].
  apply eqb_eq in E. contradiction.
Qed.

Lemma get_None_not_in (d : @PyDict.dict K V) k :
  PyDict.get eqb d k = None <-> ~ In k (PyDict.keys d).
Proof.
  induction d as [|[k' v] d IH]; simpl.
  - tauto.
  - destruct (eqb k k') eqn:E.
    + apply eqb_eq in E. subst. split; [discriminate|]. intros H. exfalso. auto.
    + rewrite IH. split.
      * intros H [H1|H1]; [subst; rewrite eqb_refl in E; discriminate | auto].
      * intros H H1. auto.
Qed.

Lemma get_Some_in (d : @PyDict.dict K V) k v :
  PyDict.get eqb d k = Some v -> In (k, v) d.
Proof.
  induction d as [|[k' v'] d IH]; simpl; [discriminate|].
  destruct (eqb k k') eqn:E.
  - apply eqb_eq in E. subst. intros [= ->]. now left.
  - auto.
Qed.

Lemma in_keys_get (d : @PyDict.dict K V) k :
  In k (PyDict.keys d) -> exists v, PyDict.get eqb d k = Some v.
Proof.
  intros H. destruct (PyDict.get eqb d k) eqn:E; [eauto|].
  apply get_None_not_in in E. contradiction.
Qed.

Lemma get_set_same (d : @PyDict.dict K V) k v :
  PyDict.get eqb (PyDict.set eqb d k v) k = Some v.
Proof.
  induction d as [|[k' v'] d IH]; simpl.
  - now rewrite eqb_refl.
  - destruct (eqb k k') eqn:E; simpl; rewrite E; auto.
Qed.

Lemma set_absent (d : @PyDict.dict K V) k v :
  PyDict.get eqb d k = None -> PyDict.set eqb d k v = (d ++ [(k, v)])%list.
Proof.
  induction d as [|[k' v'] d IH]; simpl; [reflexivity|].
  destruct (eqb k k'); [discriminate|]. intros H. now rewrite IH.
Qed.

Lemma keys_set_present (d : @PyDict.dict K V) k v v0 :
  PyDict.get eqb d k = Some v0 ->
  PyDict.keys (PyDict.set eqb d k v) = PyDict.keys d.
Proof.
  induction d as [|[k' v'] d IH]; simpl; [discriminate|].
  destruct (eqb k k') eqn:E; simpl; [reflexivity|].
  intros H. now rewrite IH.
Qed.

Lemma values_set_Forall (P : V -> Prop) (d : @PyDict.dict K V) k v :
  Forall P (PyDict.values d) -> P v ->
  Forall P (PyDict.values (PyDict.set eqb d k v)).
Proof.
  induction d as [|[k' v'] d IH]; simpl; intros H Hv.
  - constructor; auto.
  - inversion H; subst. destruct (eqb k k'); simpl; constructor; auto.
Qed.

Lemma keys_set_NoDup (d : @PyDict.dict K V) k v :
  NoDup (PyDict.keys d) -> NoDup (PyDict.keys (PyDict.set eqb d k v)).
Proof.
  intros H. destruct (PyDict.get eqb d k) eqn:E.
  - now rewrite (keys_set_present _ _ _ _ E).
  - rewrite (set_absent _ _ _ E). unfold PyDict.keys. rewrite map_app. simpl.
    apply get_None_not_in in E.
    apply NoDup_app; [exact H | repeat constructor; auto | ].
    intros x Hx [<-|[]]. contradiction.
Qed.

Lemma keys_remove (d : @PyDict.dict K V) k :
  PyDict.keys (PyDict.remove eqb d k)
  = filter (fun k' => negb (eqb k k')) (PyDict.keys d).
Proof.
  induction d as [|[k' v'] d IH]; simpl; [reflexivity|].
  destruct (eqb k k'); simpl; now rewrite IH.
Qed.

Lemma remove_not_in (d : @PyDict.dict K V) k :
  ~ In k (PyDict.keys (PyDict.remove eqb d k)).
Proof.
  rewrite keys_remove, filter_In. intros [_ H]. now rewrite eqb_refl in H.
Qed.

Lemma get_remove_same (d : @PyDict.dict K V) k :
  PyDict.get eqb (PyDict.remove eqb d k) k = None.
Proof. apply get_None_not_in, remove_not_in. Qed.

Lemma keys_remove_NoDup (d : @PyDict.dict K V) k :
  NoDup (PyDict.keys d) -> NoDup (PyDict.keys (PyDict.remove eqb d k)).
Proof. rewrite keys_remove. apply NoDup_filter. Qed.

Lemma remove_set_same (d : @PyDict.dict K V) k v :
  PyDict.remove eqb (PyDict.set eqb d k v) k = PyDict.remove eqb d k.
Proof.
  induction d as [|[k' v'] d IH]; simpl.
  - now rewrite eqb_refl.
  - destruct (eqb k k') eqn:E; simpl; rewrite E; [reflexivity|now rewrite IH].
Qed.

Lemma set_set_same (d : @PyDict.dict K V) k v v' :
  PyDict.set eqb (PyDict.set eqb d k v) k v' = PyDict.set eqb d k v'.
Proof.
  induction d as [|[k' v0] d IH]; simpl.
  - now rewrite eqb_refl.
  - destruct (eqb k k') eqn:E; simpl; rewrite E; [reflexivity|now rewrite IH].
Qed.

Lemma remove_subset (d : @PyDict.dict K V) k e :
  In e (PyDict.remove eqb d k) -> In e d.
Proof.
  induction d as [|[k' v'] d IH]; simpl; [tauto|].
  destruct (eqb k k'); simpl; intuition.
Qed.

Lemma fold_set_fresh (l acc : @PyDict.dict K V) :
  NoDup (PyDict.keys (acc ++ l)%list) ->
  fold_left (fun d kv => PyDict.set eqb d (fst kv) (snd kv)) l acc
  = (acc ++ l)%list.
Proof.
  revert acc. induction l as [|[k v] l IH]; intros acc H; simpl.
  - now rewrite app_nil_r.
  - assert (E : PyDict.get eqb acc k = None).
    { apply get_None_not_in. unfold PyDict.keys in *. rewrite map_app in H.
      simpl in H. apply NoDup_remove_2 in H. intros Hin. apply H.
      apply in_or_app. now left. }
    rewrite (set_absent _ _ _ E).
    replace (acc ++ (k, v) :: l)%list with ((acc ++ [(k, v)]) ++ l)%list in *
      by (now rewrite <- app_assoc).
    now apply IH.
Qed.

(** Building a dictionary from pairs with distinct keys keeps the pairs. *)
Lemma of_pairs_NoDup (l : list (K * V)) :
  NoDup (PyDict.keys l) -> PyDict.of_pairs eqb l = l.
Proof. intros H. unfold PyDict.of_pairs. now rewrite fold_set_fresh. Qed.

Lemma fold_set_keys_NoDup (l acc : @PyDict.dict K V) :
  NoDup (PyDict.keys acc) ->
  NoDup (PyDict.keys (fold_left (fun d kv => PyDict.set eqb d (fst kv) (snd kv)) l acc)).
Proof.
  revert acc. induction l as [|[k v] l IH]; intros acc H; simpl; [exact H|].
  apply IH, keys_set_NoDup, H.
Qed.

Lemma fold_set_values_Forall (P : V -> Prop) (l acc : @PyDict.dict K V) :
  Forall P (PyDict.values acc) -> Forall P (PyDict.values l) ->
  Forall P (PyDict.values (fold_left (fun d kv => PyDict.set eqb d (fst kv) (snd kv)) l acc)).
Proof.
  revert acc. induction l as [|[k v] l IH]; intros acc H1 H2; simpl; [exact H1|].
  inversion H2; subst. apply IH; [|assumption]. now apply values_set_Forall.
Qed.

Lemma fold_set_keys_Forall (P : K -> Prop) (l acc : @PyDict.dict K V) :
  Forall P (PyDict.keys acc) -> Forall P (PyDict.keys l) ->
  Forall P (PyDict.keys (fold_left (fun d kv => PyDict.set eqb d (fst kv) (snd kv)) l acc)).
Proof.
  revert acc. induction l as [|[k v] l IH]; intros acc H1 H2; simpl; [exact H1|].
  inversion H2; subst. apply IH; [|assumption].
  destruct (PyDict.get eqb acc k) eqn:E.
  - now rewrite (keys_set_present _ _ _ _ E).
  - rewrite (set_absent _ _ _ E). unfold PyDict.keys in *. rewrite map_app.
    apply Forall_app. split; [assumption|]. repeat constructor. assumption.
Qed.
End DictFacts.

Lemma key_eqb_eq a b : key_eqb a b = true <-> a = b.
Proof.
  destruct a, b; simpl; try (split; discriminate).
  - rewrite String.eqb_eq. split; congruence.
  - rewrite Z.eqb_eq. split; congruence.
Qed.

(** ** Well-formed stores *)

Lemma wf_store_get ps k g :
  wf_store ps -> kget ps k = Some g -> wf_guild g.
Proof.
  intros (_ & _ & H) E. apply get_Some_in in E; [|apply key_eqb_eq].
  rewrite Forall_forall in H. apply H. unfold PyDict.values.
  change g with (snd (k, g)). now apply in_map.
Qed.

Lemma wf_store_update ps k g g' :
  wf_store ps -> kget ps k = Some g -> wf_guild g' -> wf_store (kset ps k g').
Proof.
  intros (H1 & H2 & H3) E Hg. unfold wf_store.
  rewrite (keys_set_present _ _ _ _ _ E).
  repeat split; auto. now apply values_set_Forall.
Qed.

Lemma wf_store_new ps s g' :
  wf_store ps -> wf_guild g' -> wf_store (kset ps (KStr s) g').
Proof.
  intros H Hg. destruct (kget ps (KStr s)) eqn:E.
  - eapply wf_store_update; eauto.
  - destruct H as (H1 & H2 & H3). repeat split.
    + rewrite (set_absent _ _ _ _ E). unfold PyDict.keys. rewrite map_app.
      apply Forall_app. split; [exact H1|]. repeat constructor.
    + apply keys_set_NoDup; [apply key_eqb_eq | exact H2].
    + now apply values_set_Forall.
Qed.

Lemma wf_guild_set g name l : wf_guild g -> wf_guild (sset g name l).
Proof. apply keys_set_NoDup, String.eqb_eq. Qed.

Lemma wf_guild_remove g name : wf_guild g -> wf_guild (sremove g name).
Proof. apply keys_remove_NoDup. Qed.

(** ** Handlers keep the store well formed *)

Lemma preserves_ret {A} (a : A) : preserves (ret a).
Proof. intros b H. exact H. Qed.

Lemma preserves_raise {A} e : preserves (@raise A e).
Proof. intros b H. exact H. Qed.

Lemma preserves_emit e : preserves (emit e).
Proof. intros b H. exact H. Qed.

Lemma preserves_get_playlists : preserves get_playlists.
Proof. intros b H. exact H. Qed.

Lemma preserves_save_playlists : preserves PlaylistGroup.save_playlists.
Proof. intros b H. exact H. Qed.

Lemma preserves_subscript {A} (o : option A) k : preserves (subscript o k).
Proof. destruct o; intros b H; exact H. Qed.

Lemma preserves_bind {A B} (m : M A) (f : A -> M B) :
  preserves m -> (forall a, preserves (f a)) -> preserves (bind m f).
Proof.
  intros Hm Hf b Hb. unfold bind. specialize (Hm b Hb).
  destruct (m b) as [[b1 l1] [a|e]]; simpl in *; [|exact Hm].
  specialize (Hf a b1 Hm). now destruct (f a b1) as [[b2 l2] r].
Qed.

Create HintDb pres.

#[local] Hint Resolve preserves_ret preserves_raise preserves_emit
  preserves_get_playlists preserves_save_playlists preserves_subscript : pres.

Ltac pres_step :=
  match goal with
  | |- preserves (bind _ _) => apply preserves_bind; [|intros]
  | |- preserves (if ?c then _ else _) => destruct c
  | |- preserves (match ?x with _ => _ end) => destruct x
  | |- forall _, _ => intros
  end.

Ltac pres := repeat pres_step; auto with pres.

Lemma preserves_guild_at k : preserves (guild_at k).
Proof. unfold guild_at. pres. Qed.

Lemma preserves_tracks_at k name : preserves (tracks_at k name).
Proof. unfold tracks_at. pres. apply preserves_guild_at. Qed.

Lemma preserves_track_at k name i : preserves (track_at k name i).
Proof. unfold track_at. pres. apply preserves_tracks_at. Qed.

Lemma preserves_mapM {A B} (f : A -> M B) l :
  (forall x, preserves (f x)) -> preserves (mapM f l).
Proof. intros H. induction l; simpl; pres. Qed.

Lemma preserves_set_guild_str s g : wf_guild g -> preserves (set_guild (KStr s) g).
Proof. intros Hg b Hb. simpl. now apply wf_store_new. Qed.

Lemma preserves_set_tracks k name l : preserves (set_tracks k name l).
Proof.
  intros b Hb. unfold set_tracks, guild_at, set_guild, bind, get_playlists,
    put_playlists, subscript, ret, raise, final. simpl.
  destruct (kget (playlists b) k) as [g|] eqn:E; simpl; [|exact Hb].
  eapply wf_store_update; eauto. apply wf_guild_set. eapply wf_store_get; eauto.
Qed.

Lemma preserves_del_playlist k name : preserves (del_playlist k name).
Proof.
  intros b Hb. unfold del_playlist, guild_at, set_guild, bind, get_playlists,
    put_playlists, subscript, ret, raise, final. simpl.
  destruct (kget (playlists b) k) as [g|] eqn:E; simpl; [|exact Hb].
  destruct (sget g name); simpl; [|exact Hb].
  eapply wf_store_update; eauto. apply wf_guild_remove. eapply wf_store_get; eauto.
Qed.

Lemma preserves_pop_playlist k name : preserves (pop_playlist k name).
Proof.
  intros b Hb. unfold pop_playlist, guild_at, set_guild, bind, get_playlists,
    put_playlists, subscript, ret, raise, final. simpl.
  destruct (kget (playlists b) k) as [g|] eqn:E; simpl; [|exact Hb].
  destruct (sget g name); simpl; [|exact Hb].
  eapply wf_store_update; eauto. apply wf_guild_remove. eapply wf_store_get; eauto.
Qed.

Lemma preserves_append_track k name url : preserves (append_track k name url).
Proof. unfold append_track. pres; [apply preserves_tracks_at|apply preserves_set_tracks]. Qed.

Lemma preserves_del_track k name i : preserves (del_track k name i).
Proof. unfold del_track. pres; [apply preserves_tracks_at|apply preserves_set_tracks]. Qed.

#[local] Hint Resolve preserves_guild_at preserves_tracks_at preserves_track_at
  preserves_set_tracks preserves_del_playlist preserves_pop_playlist
  preserves_append_track preserves_del_track : pres.

Lemma preserves_list_playlist g : preserves (PlaylistGroup.list_playlist g).
Proof.
  unfold PlaylistGroup.list_playlist, PlaylistGroup.list_rows. pres.
  apply preserves_mapM. pres.
Qed.

Lemma preserves_create_playlist g name : preserves (PlaylistGroup.create_playlist g name).
Proof.
  unfold PlaylistGroup.create_playlist. pres.
  apply preserves_set_guild_str. constructor.
Qed.

Lemma preserves_delete_playlist g name : preserves (PlaylistGroup.delete_playlist g name).
Proof. unfold PlaylistGroup.delete_playlist. pres. Qed.

Lemma preserves_rename_playlist g name new_name :
  preserves (PlaylistGroup.rename_playlist g name new_name).
Proof. unfold PlaylistGroup.rename_playlist. pres. Qed.

Lemma preserves_add_to_playlist A fetch g name url :
  preserves (PlaylistGroup.add_to_playlist A fetch g name url).
Proof. unfold PlaylistGroup.add_to_playlist. pres. Qed.

Lemma preserves_remove_from_playlist g name i :
  preserves (PlaylistGroup.remove_from_playlist g name i).
Proof. unfold PlaylistGroup.remove_from_playlist. pres. Qed.

Lemma preserves_handle A (c : command A) : preserves (handle A c).
Proof.
  destruct c; simpl;
    auto using preserves_list_playlist, preserves_create_playlist,
      preserves_delete_playlist, preserves_rename_playlist,
      preserves_add_to_playlist, preserves_remove_from_playlist.
Qed.

(** ** The JSON document of a store *)

Lemma option_all_map_Some {A B} (f : A -> option B) (h : A -> B) l :
  (forall x, In x l -> f x = Some (h x)) ->
  option_all (map f l) = Some (map h l).
Proof.
  induction l as [|x l IH]; intros H; simpl; [reflexivity|].
  rewrite (H x) by now left. rewrite IH; [reflexivity|].
  intros y Hy. apply H. now right.
Qed.

Lemma option_all_map_Forall {A B} (f : A -> option B) (P : B -> Prop) l r :
  (forall x y, f x = Some y -> P y) ->
  option_all (map f l) = Some r -> Forall P r.
Proof.
  intros Hf. revert r. induction l as [|x l IH]; simpl; intros r H.
  - injection H as <-. constructor.
  - destruct (f x) as [y|] eqn:E; [|discriminate].
    destruct (option_all (map f l)) as [r'|]; [|discriminate].
    injection H as <-. constructor; eauto.
Qed.

Lemma tracks_json_roundtrip l : tracks_of_json (tracks_to_json l) = Some l.
Proof.
  unfold tracks_of_json, tracks_to_json. rewrite map_map.
  rewrite (option_all_map_Some _ (fun s => s)); [now rewrite map_id|reflexivity].
Qed.

Lemma guild_json_roundtrip g :
  wf_guild g -> guild_of_json (guild_to_json g) = Some g.
Proof.
  intros H. unfold guild_of_json, guild_to_json. rewrite map_map.
  rewrite (option_all_map_Some _ (fun e => e)).
  - rewrite map_id. f_equal. apply of_pairs_NoDup; [apply String.eqb_eq|exact H].
  - intros [n l] _. cbn [fst snd]. now rewrite tracks_json_roundtrip.
Qed.

Lemma store_json_roundtrip ps :
  wf_store ps -> of_json (to_json ps) = Some ps.
Proof.
  intros (H1 & H2 & H3). unfold of_json, to_json. rewrite map_map.
  rewrite (option_all_map_Some _ (fun e => e)).
  - rewrite map_id. f_equal. apply of_pairs_NoDup; [apply key_eqb_eq|exact H2].
  - intros [k g] Hin. cbn [fst snd].
    rewrite guild_json_roundtrip.
    + rewrite Forall_forall in H1. specialize (H1 k).
      destruct k as [s|n]; [reflexivity|].
      exfalso. apply H1. change (KInt n) with (fst (KInt n, g)). now apply in_map.
    + rewrite Forall_forall in H3. apply H3.
      change g with (snd (k, g)). now apply in_map.
Qed.

Lemma guild_of_json_wf j g : guild_of_json j = Some g -> wf_guild g.
Proof.
  destruct j as [| |ms]; simpl; try discriminate.
  destruct (option_all _) as [l|]; [|discriminate]. intros [= <-].
  apply fold_set_keys_NoDup; [apply String.eqb_eq|constructor].
Qed.

Lemma of_json_wf j ps : of_json j = Some ps -> wf_store ps.
Proof.
  destruct j as [| |ms]; simpl; try discriminate.
  destruct (option_all _) as [l|] eqn:E; [|discriminate]. intros [= <-].
  unfold PyDict.of_pairs. repeat split.
  - apply fold_set_keys_Forall; [constructor|].
    unfold PyDict.keys. apply Forall_map.
    eapply option_all_map_Forall; [|exact E].
    intros [n j] y. simpl. destruct (guild_of_json j); [|discriminate].
    now intros [= <-].
  - apply fold_set_keys_NoDup; [apply key_eqb_eq|constructor].
  - apply fold_set_values_Forall; [constructor|].
    unfold PyDict.values. apply Forall_map.
    eapply option_all_map_Forall; [|exact E].
    intros [n j] y. simpl. destruct (guild_of_json j) eqn:Eg; [|discriminate].
    intros [= <-]. simpl. eapply guild_of_json_wf; eauto.
Qed.

Lemma reachable_wf A b : reachable A b -> wf_store (playlists b).
Proof.
  induction 1 as [f b H | b c _ IH].
  - unfold PlaylistGroup.init, PlaylistGroup.load_playlists in H.
    destruct f as [j|]; simpl in H.
    + destruct (of_json j) as [ps|] eqn:E; [|discriminate].
      injection H as <-. simpl. revert E. apply of_json_wf.
    + injection H as <-. simpl. repeat split; constructor.
  - now apply preserves_handle.
Qed.

(** ** Claims *)

(** C9: every state the bot can reach survives a save followed by a load:
    the dictionary read back from the document that [__save_playlists]
    writes is the dictionary that was saved. *)
Theorem save_then_load_roundtrip :
  forall A b, reachable A b ->
    PlaylistGroup.load_playlists (file (final (PlaylistGroup.save_playlists b)))
    = Some (playlists b).
Proof.
  intros A b H. simpl. apply store_json_roundtrip. eapply reachable_wf; eauto.
Qed.

Lemma save_then_load_roundtrip_witness :
  reachable unit (final (handle unit (Create unit 42 "road-trip") fresh)) /\
  PlaylistGroup.load_playlists
    (file (final (PlaylistGroup.save_playlists
                    (final (handle unit (Create unit 42 "road-trip") fresh)))))
  = Some [(KStr "42", [("road-trip", [])])].
Proof.
  assert (H : reachable unit (final (handle unit (Create unit 42 "road-trip") fresh))).
  { apply reach_step. apply (reach_init None). reflexivity. }
  split; [exact H|].
  exact (save_then_load_roundtrip unit
           (final (handle unit (Create unit 42 "road-trip") fresh)) H).
Defined.

(** The round trip needs the string keys: an integer key comes back as a
    string. *)
Example int_key_does_not_roundtrip :
  PlaylistGroup.load_playlists (Some (to_json [(KInt 42, [("p", ["u"])])]))
  = Some [(KStr "42", [("p", ["u"])])].
Proof. reflexivity. Qed.

Lemma fold_add_acc l a : fold_left Z.add l a = a + fold_left Z.add l 0.
Proof.
  revert a. induction l as [|x l IH]; intros a; simpl; [lia|].
  rewrite (IH (a + x)), (IH x). lia.
Qed.

Lemma py_sum_cons x l : py_sum (x :: l) = x + py_sum l.
Proof. unfold py_sum. simpl. apply fold_add_acc. Qed.

(** C10: the [duration] property of a [Playlist] is the sum of the
    [duration] fields of its tracks, and it is 0 for an empty track list. *)
Theorem playlist_duration_is_sum :
  (forall A (p : Sources.Playlist A),
      Sources.Playlist_duration A p = total_duration (Sources.tracks A p)) /\
  (forall A t u,
      Sources.Playlist_duration A
        {| Sources.p_title := t; Sources.p_webpage_url := u; Sources.tracks := [] |} = 0).
Proof.
  split; [|reflexivity].
  intros A [t u l]. unfold Sources.Playlist_duration. simpl.
  induction l as [|x l IH]; [reflexivity|].
  simpl map. rewrite py_sum_cons, IH. reflexivity.
Qed.

(** ** Evaluating the handlers *)

Lemma bind_ok {A B} (m : M A) (f : A -> M B) b b1 l1 a :
  m b = (b1, l1, Ok a) ->
  bind m f b = after l1 (f a b1).
Proof.
  intros H. unfold bind. rewrite H. now destruct (f a b1) as [[b2 l2] r].
Qed.

Lemma after_nil {A} (r : bot * list event * result A) : after [] r = r.
Proof. now destruct r as [[b l] r]. Qed.

Lemma ret_ok {A} (a : A) b : ret a b = (b, [], Ok a).
Proof. reflexivity. Qed.

Lemma save_playlists_ok b :
  PlaylistGroup.save_playlists b
  = ({| playlists := playlists b; file := Some (to_json (playlists b)) |}, [], Ok tt).
Proof. reflexivity. Qed.

Lemma bind_raise {A B} (m : M A) (f : A -> M B) b b1 l1 e :
  m b = (b1, l1, Raise e) -> bind m f b = (b1, l1, Raise e).
Proof. intros H. unfold bind. now rewrite H. Qed.

Lemma guild_at_ok k b g :
  kget (playlists b) k = Some g -> guild_at k b = (b, [], Ok g).
Proof. intros H. unfold guild_at, bind, get_playlists. now rewrite H. Qed.

Lemma guild_at_missing k b :
  kget (playlists b) k = None -> guild_at k b = (b, [], Raise (KeyError k)).
Proof. intros H. unfold guild_at, bind, get_playlists. now rewrite H. Qed.

Lemma tracks_at_ok k name b g l :
  kget (playlists b) k = Some g -> sget g name = Some l ->
  tracks_at k name b = (b, [], Ok l).
Proof.
  intros H1 H2. unfold tracks_at.
  rewrite (bind_ok _ _ _ _ _ _ (guild_at_ok _ _ _ H1)). now rewrite H2.
Qed.

Lemma tracks_at_missing k name b g :
  kget (playlists b) k = Some g -> sget g name = None ->
  tracks_at k name b = (b, [], Raise (KeyError (KStr name))).
Proof.
  intros H1 H2. unfold tracks_at.
  rewrite (bind_ok _ _ _ _ _ _ (guild_at_ok _ _ _ H1)). now rewrite H2.
Qed.

Lemma track_at_present k name i b g l :
  kget (playlists b) k = Some g -> sget g name = Some l ->
  track_at k name i b
  = match py_index (List.length l) i with
    | Some n =>
        match nth_error l n with
        | Some u => (b, [], Ok u)
        | None => (b, [], Raise IndexError)
        end
    | None => (b, [], Raise IndexError)
    end.
Proof.
  intros H1 H2. unfold track_at.
  rewrite (bind_ok _ _ _ _ _ _ (tracks_at_ok _ _ _ _ _ H1 H2)), after_nil.
  destruct (py_index (List.length l) i) as [n|]; [|reflexivity].
  destruct (nth_error l n); reflexivity.
Qed.

Lemma mapM_pure {A B} (f : A -> M B) (h : A -> B) l b :
  (forall x, In x l -> f x b = (b, [], Ok (h x))) ->
  mapM f l b = (b, [], Ok (map h l)).
Proof.
  induction l as [|x l IH]; intros H; simpl; [reflexivity|].
  rewrite (bind_ok _ _ _ _ _ _ (H x (or_introl eq_refl))).
  rewrite (bind_ok _ _ _ _ _ _ (IH (fun y Hy => H y (or_intror Hy)))).
  reflexivity.
Qed.

Lemma enumerate_snd {A} (l : list A) s : map snd (enumerate l s) = l.
Proof. revert s. induction l; intros s; simpl; [|rewrite IHl]; reflexivity. Qed.

Lemma enumerate_map {A B} (f : A -> B) (l : list A) s :
  enumerate (map f l) s = map (fun ie => (fst ie, f (snd ie))) (enumerate l s).
Proof. revert s. induction l; intros s; simpl; [|rewrite IHl]; reflexivity. Qed.

(** Listing a guild that has an entry in the store yields one row per key of
    the guild's dictionary, in iteration order. *)
Lemma list_rows_ok gid b g :
  kget (playlists b) (KStr gid) = Some g ->
  PlaylistGroup.list_rows gid b
  = (b, [], Ok (map (fun ip => (fst ip, snd ip, count_of g (snd ip)))
                    (enumerate (PyDict.keys g) 1))).
Proof.
  intros H. unfold PlaylistGroup.list_rows.
  rewrite (bind_ok _ _ _ _ _ _ (guild_at_ok _ _ _ H)).
  rewrite (mapM_pure _ (fun ip => (fst ip, snd ip, count_of g (snd ip)))).
  - reflexivity.
  - intros [i n] Hin. simpl.
    assert (Hn : In n (PyDict.keys g)).
    { rewrite <- (enumerate_snd (PyDict.keys g) 1).
      change n with (snd (i, n)). now apply in_map. }
    destruct (in_keys_get _ String.eqb_eq _ _ Hn) as [l Hl].
    rewrite (bind_ok _ _ _ _ _ _ (tracks_at_ok _ _ _ _ _ H Hl)).
    unfold count_of. now rewrite Hl.
Qed.

Lemma list_playlist_ok guild b g :
  kget (playlists b) (KStr (str_int guild)) = Some g ->
  exists rows,
    PlaylistGroup.list_playlist guild b
    = (b, [listing rows], Ok tt) /\
    row_names rows = PyDict.keys g /\
    forall i n c, In (i, n, c) rows -> c = count_of g n.
Proof.
  intros H. eexists. split; [|split].
  - unfold PlaylistGroup.list_playlist.
    unfold bind at 1. simpl.
    destruct (playlists b) eqn:E; [discriminate|]. simpl.
    rewrite <- E in *.
    rewrite (bind_ok _ _ _ _ _ _ (list_rows_ok _ _ _ H)). reflexivity.
  - unfold row_names. rewrite map_map. simpl. apply enumerate_snd.
  - intros i n c Hin. apply in_map_iff in Hin. destruct Hin as [[i' n'] [Heq _]].
    simpl in Heq. now injection Heq as <- <- <-.
Qed.

Ltac ev H := rewrite (bind_ok _ _ _ _ _ _ H); cbv beta; rewrite ?after_nil.

Lemma set_guild_ok k g b :
  set_guild k g b
  = ({| playlists := kset (playlists b) k g; file := file b |}, [], Ok tt).
Proof. reflexivity. Qed.

Lemma set_tracks_ok k name l b g :
  kget (playlists b) k = Some g ->
  set_tracks k name l b
  = ({| playlists := kset (playlists b) k (sset g name l); file := file b |}, [], Ok tt).
Proof.
  intros H. unfold set_tracks. ev (guild_at_ok _ _ _ H). reflexivity.
Qed.

Lemma del_playlist_ok k name b g l :
  kget (playlists b) k = Some g -> sget g name = Some l ->
  del_playlist k name b
  = ({| playlists := kset (playlists b) k (sremove g name); file := file b |}, [], Ok tt).
Proof.
  intros H1 H2. unfold del_playlist. ev (guild_at_ok _ _ _ H1).
  rewrite H2. reflexivity.
Qed.

Lemma del_track_ok k name i b g l n :
  kget (playlists b) k = Some g -> sget g name = Some l ->
  py_index (List.length l) i = Some n ->
  del_track k name i b
  = ({| playlists := kset (playlists b) k (sset g name (drop_nth n l));
        file := file b |}, [], Ok tt).
Proof.
  intros H1 H2 H3. unfold del_track. ev (tracks_at_ok _ _ _ _ _ H1 H2).
  rewrite H3. now rewrite (set_tracks_ok _ _ _ _ _ H1).
Qed.

Lemma del_track_out_of_range k name i b g l :
  kget (playlists b) k = Some g -> sget g name = Some l ->
  py_index (List.length l) i = None ->
  del_track k name i b = (b, [], Raise IndexError).
Proof.
  intros H1 H2 H3. unfold del_track. ev (tracks_at_ok _ _ _ _ _ H1 H2).
  now rewrite H3.
Qed.

(** The comparison [0 > track_id - 1 > len(...)] of [remove_from_playlist]
    holds for no index. *)
Lemma range_check_never_holds (t : Z) (n : nat) :
  (0 >? t - 1) && (t - 1 >? Z.of_nat n) = false.
Proof.
  rewrite !Z.gtb_ltb. apply andb_false_iff.
  destruct (t - 1 <? 0) eqn:E; [right|now left].
  apply Z.ltb_lt in E. apply Z.ltb_ge. lia.
Qed.

(** What [remove_from_playlist] does on a playlist that exists: the index
    is used as a Python list index, whatever its value; the playlist is
    deleted when the list becomes empty; the message reads the list again
    after the removal. *)
Lemma remove_from_playlist_present guild name track_id b g l :
  kget (playlists b) (KStr (str_int guild)) = Some g ->
  sget g name = Some l ->
  PlaylistGroup.remove_from_playlist guild name track_id b
  = match py_index (List.length l) (track_id - 1) with
    | None => (b, [], Raise IndexError)
    | Some n =>
        match drop_nth n l with
        | [] =>
            let ps := kset (playlists b) (KStr (str_int guild)) (sremove g name) in
            ({| playlists := ps; file := Some (to_json ps) |}, [],
             Raise (KeyError (KStr name)))
        | l' =>
            let ps := kset (playlists b) (KStr (str_int guild)) (sset g name l') in
            let b' := {| playlists := ps; file := Some (to_json ps) |} in
            match py_index (List.length l') (track_id - 1) with
            | Some m =>
                match nth_error l' m with
                | Some u =>
                    (b', [SendMessage ("Removed " ++ u ++ " from the playlist " ++ name ++ ".")],
                     Ok tt)
                | None => (b', [], Raise IndexError)
                end
            | None => (b', [], Raise IndexError)
            end
        end
    end.
Proof.
  intros Hg Hl. unfold PlaylistGroup.remove_from_playlist. cbv zeta.
  set (k := KStr (str_int guild)) in *.
  ev (guild_at_ok _ _ _ Hg).
  unfold PyDict.contains. rewrite Hl. cbn [negb].
  assert (Hrej :
    (if 0 >? track_id - 1
     then l0 <- tracks_at k name ;; ret (track_id - 1 >? Z.of_nat (List.length l0))
     else ret false) b = (b, [], Ok false)).
  { pose proof (range_check_never_holds track_id (List.length l)) as Hr.
    destruct (0 >? track_id - 1); [|reflexivity].
    ev (tracks_at_ok _ _ _ _ _ Hg Hl). simpl in Hr. now rewrite Hr. }
  ev Hrej.
  destruct (py_index (List.length l) (track_id - 1)) as [n|] eqn:Ei.
  2:{ now rewrite (bind_raise _ _ _ _ _ _ (del_track_out_of_range _ _ _ _ _ _ Hg Hl Ei)). }
  ev (del_track_ok _ _ _ _ _ _ _ Hg Hl Ei).
  set (b1 := {| playlists := kset (playlists b) k (sset g name (drop_nth n l)); file := file b |}).
  assert (Hg1 : kget (playlists b1) k = Some (sset g name (drop_nth n l))).
  { apply get_set_same, key_eqb_eq. }
  assert (Hl1 : sget (sset g name (drop_nth n l)) name = Some (drop_nth n l)).
  { apply get_set_same, String.eqb_eq. }
  ev (tracks_at_ok _ _ _ _ _ Hg1 Hl1).
  destruct (drop_nth n l) as [|u0 l0] eqn:El; cbn [nonempty negb].
  - ev (del_playlist_ok _ _ _ _ _ Hg1 Hl1).
    ev (save_playlists_ok {| playlists := kset (playlists b1) k (sremove (sset g name []) name);
                             file := file b1 |}).
    cbn [playlists file b1].
    rewrite (set_set_same _ key_eqb_eq), (remove_set_same _ String.eqb_eq).
    set (b2 := {| playlists := _; file := Some _ |}).
    assert (Hg2 : kget (playlists b2) k = Some (sremove g name)).
    { apply get_set_same, key_eqb_eq. }
    assert (Hl2 : sget (sremove g name) name = None).
    { apply get_remove_same, String.eqb_eq. }
    unfold track_at.
    apply bind_raise, bind_raise, (tracks_at_missing _ _ _ _ Hg2 Hl2).
  - ev (ret_ok tt b1).
    ev (save_playlists_ok b1).
    cbn [playlists file b1].
    set (b2 := {| playlists := _; file := Some _ |}).
    assert (Hg2 : kget (playlists b2) k = Some (sset g name (u0 :: l0))).
    { apply get_set_same, key_eqb_eq. }
    pose proof (track_at_present _ _ (track_id - 1) _ _ _ Hg2 Hl1) as Ht.
    cbv zeta.
    destruct (py_index (List.length (u0 :: l0)) (track_id - 1)) as [m|].
    + destruct (nth_error (u0 :: l0) m).
      * ev Ht. reflexivity.
      * apply bind_raise, Ht.
    + apply bind_raise, Ht.
Qed.

(** C8: removing track 1 of a playlist that holds exactly one track deletes
    the playlist from the guild's dictionary (the other playlists stay), the
    store is saved in that state, and a listing of the guild that follows
    has no row for the playlist. *)
Theorem remove_only_track_deletes_playlist :
  forall b guild name g u,
    kget (playlists b) (KStr (str_int guild)) = Some g ->
    sget g name = Some [u] ->
    kget (playlists (final (PlaylistGroup.remove_from_playlist guild name 1 b)))
         (KStr (str_int guild)) = Some (sremove g name) /\
    sget (sremove g name) name = None /\
    file (final (PlaylistGroup.remove_from_playlist guild name 1 b))
    = Some (to_json (playlists (final (PlaylistGroup.remove_from_playlist guild name 1 b)))) /\
    exists rows,
      PlaylistGroup.list_playlist guild
        (final (PlaylistGroup.remove_from_playlist guild name 1 b))
      = (final (PlaylistGroup.remove_from_playlist guild name 1 b), [listing rows], Ok tt) /\
      row_names rows = PyDict.keys (sremove g name) /\
      ~ In name (row_names rows).
Proof.
  intros b guild name g u Hg Hl.
  rewrite (remove_from_playlist_present _ _ _ _ _ _ Hg Hl). simpl.
  assert (Hg' : kget (kset (playlists b) (KStr (str_int guild)) (sremove g name))
                     (KStr (str_int guild)) = Some (sremove g name)).
  { apply get_set_same, key_eqb_eq. }
  split; [exact Hg'|]. split; [apply get_remove_same, String.eqb_eq|].
  split; [reflexivity|].
  destruct (list_playlist_ok guild
              {| playlists := kset (playlists b) (KStr (str_int guild)) (sremove g name);
                 file := Some (to_json (kset (playlists b) (KStr (str_int guild)) (sremove g name))) |}
              (sremove g name) Hg') as (rows & H1 & H2 & _).
  exists rows. split; [exact H1|]. split; [exact H2|].
  rewrite H2. apply remove_not_in, String.eqb_eq.
Qed.

Lemma remove_only_track_deletes_playlist_witness :
  kget (playlists (guild1 [("road-trip", ["https://example/a"]); ("other", ["u"])]))
       (KStr (str_int 1))
  = Some [("road-trip", ["https://example/a"]); ("other", ["u"])] /\
  sget [("road-trip", ["https://example/a"]); ("other", ["u"])] "road-trip"
  = Some ["https://example/a"] /\
  kget (playlists (final (PlaylistGroup.remove_from_playlist 1 "road-trip" 1
          (guild1 [("road-trip", ["https://example/a"]); ("other", ["u"])]))))
       (KStr (str_int 1))
  = Some [("other", ["u"])].
Proof.
  split; [reflexivity|]. split; [reflexivity|].
  apply (remove_only_track_deletes_playlist
           (guild1 [("road-trip", ["https://example/a"]); ("other", ["u"])])
           1 "road-trip"
           [("road-trip", ["https://example/a"]); ("other", ["u"])]
           "https://example/a"); reflexivity.
Defined.

(** ** What the other handlers do *)

Lemma emit_ok e b : emit e b = (b, [e], Ok tt).
Proof. reflexivity. Qed.

Lemma get_playlists_ok b : get_playlists b = (b, [], Ok (playlists b)).
Proof. reflexivity. Qed.

Lemma wf_store_no_int_key ps n : wf_store ps -> kget ps (KInt n) = None.
Proof.
  intros (H & _ & _). apply get_None_not_in; [apply key_eqb_eq|].
  intros Hin. rewrite Forall_forall in H. exact (H _ Hin).
Qed.

Lemma get_in_NoDup (g : guild_playlists) n l :
  wf_guild g -> In (n, l) g -> sget g n = Some l.
Proof.
  unfold wf_guild. induction g as [|[n' l'] g IH]; simpl; intros Hnd Hin; [tauto|].
  inversion Hnd as [|? ? Hn Hnd']; subst.
  destruct Hin as [[= -> ->]|Hin].
  - now rewrite String.eqb_refl.
  - destruct (String.eqb n n') eqn:E; [|auto].
    apply String.eqb_eq in E. subst. exfalso. apply Hn.
    change n' with (fst (n', l)). now apply in_map.
Qed.

Lemma rows_of_keys g :
  wf_guild g ->
  map (fun ip => (fst ip, snd ip, count_of g (snd ip))) (enumerate (PyDict.keys g) 1)
  = rows_of g.
Proof.
  intros Hwf. unfold rows_of, PyDict.keys. rewrite enumerate_map, map_map.
  apply map_ext_in. intros [i [n l]] Hin. cbn [fst snd]. unfold count_of.
  rewrite (get_in_NoDup g n l Hwf); [reflexivity|].
  rewrite <- (enumerate_snd g 1). change (n, l) with (snd (i, (n, l))). now apply in_map.
Qed.

(** [list_playlist] on a guild that has an entry: one row per playlist, in
    the order of the guild's dictionary, with the playlist's track count. *)
Lemma list_playlist_present guild b g :
  kget (playlists b) (KStr (str_int guild)) = Some g ->
  wf_guild g ->
  PlaylistGroup.list_playlist guild b = (b, [listing (rows_of g)], Ok tt).
Proof.
  intros H Hwf. unfold PlaylistGroup.list_playlist. cbv zeta.
  ev (get_playlists_ok b).
  destruct (playlists b) eqn:E; [discriminate|]. cbn [nonempty negb]. rewrite <- E in H.
  ev (list_rows_ok _ _ _ H). now rewrite (rows_of_keys g Hwf).
Qed.

(** [list_playlist] when the whole store is empty. *)
Lemma list_playlist_empty_store guild b :
  playlists b = [] ->
  PlaylistGroup.list_playlist guild b
  = (b, [SendMessage "No saved playlists found. Create your own by with `playlist create <name>`"],
     Ok tt).
Proof.
  intros H. unfold PlaylistGroup.list_playlist. cbv zeta.
  ev (get_playlists_ok b). now rewrite H.
Qed.

(** [list_playlist] on a guild without an entry, in a store that has
    entries: the subscript raises. *)
Lemma list_playlist_missing_guild guild b :
  playlists b <> [] ->
  kget (playlists b) (KStr (str_int guild)) = None ->
  PlaylistGroup.list_playlist guild b = (b, [], Raise (KeyError (KStr (str_int guild)))).
Proof.
  intros Hne H. unfold PlaylistGroup.list_playlist. cbv zeta.
  ev (get_playlists_ok b).
  destruct (playlists b) eqn:E; [contradiction|]. cbn [nonempty negb]. rewrite <- E in H.
  unfold PlaylistGroup.list_rows.
  apply bind_raise, bind_raise, guild_at_missing, H.
Qed.

(** [create_playlist] looks the name up among the guild ids; when it is not
    one of them, the guild's dictionary is replaced by one that holds the
    new playlist alone. *)
Lemma create_playlist_replaces_guild guild name b :
  wf_store (playlists b) ->
  kget (playlists b) (KStr name) = None ->
  PlaylistGroup.create_playlist guild name b
  = (started_on (kset (playlists b) (KStr (str_int guild)) [(name, [])]),
     [SendMessage ("Created playlist " ++ name ++ ".")], Ok tt).
Proof.
  intros Hwf Hn. unfold PlaylistGroup.create_playlist. cbv zeta.
  ev (get_playlists_ok b). unfold PyDict.contains. rewrite Hn.
  rewrite (wf_store_no_int_key _ guild Hwf). cbn [truthy negb].
  ev (set_guild_ok (KStr (str_int guild)) [] b).
  set (b1 := {| playlists := _; file := file b |}).
  assert (H1 : kget (playlists b1) (KStr (str_int guild)) = Some []).
  { apply get_set_same, key_eqb_eq. }
  ev (set_tracks_ok _ name [] _ _ H1).
  cbn [playlists b1 PyDict.set]. rewrite (set_set_same _ key_eqb_eq).
  ev (save_playlists_ok {| playlists := kset (playlists b) (KStr (str_int guild)) [(name, [])];
                           file := file b1 |}).
  reflexivity.
Qed.

(** [delete_playlist] looks the name up among the guild ids. *)
Lemma delete_playlist_not_a_guild_id guild name b :
  kget (playlists b) (KStr name) = None ->
  PlaylistGroup.delete_playlist guild name b
  = (b, [SendMessage "Playlist does not exist."], Ok tt).
Proof.
  intros Hn. unfold PlaylistGroup.delete_playlist. cbv zeta.
  ev (get_playlists_ok b). unfold PyDict.contains. now rewrite Hn.
Qed.

(** [rename_playlist] looks the name up among the guild ids and indexes
    the store by the integer guild id: no store read from a file is
    changed by it. *)
Lemma rename_playlist_string_keys guild name new_name b :
  wf_store (playlists b) ->
  PlaylistGroup.rename_playlist guild name new_name b
  = if kcontains (playlists b) (KStr name)
    then (b, [], Raise (KeyError (KInt guild)))
    else (b, [SendMessage "Playlist does not exist."], Ok tt).
Proof.
  intros Hwf. unfold PlaylistGroup.rename_playlist.
  ev (get_playlists_ok b).
  destruct (kcontains (playlists b) (KStr name)); cbn [negb]; [|reflexivity].
  apply bind_raise, guild_at_missing, wf_store_no_int_key, Hwf.
Qed.

(** [add_to_playlist] indexes the store by the integer guild id: on a store
    whose keys are strings it raises before the resolver is asked. *)
Lemma add_to_playlist_string_keys A fetch guild name url b :
  wf_store (playlists b) ->
  PlaylistGroup.add_to_playlist A fetch guild name url b
  = (b, [Defer], Raise (KeyError (KInt guild))).
Proof.
  intros Hwf. unfold PlaylistGroup.add_to_playlist.
  ev (emit_ok Defer b).
  rewrite (bind_raise _ _ _ _ _ _
             (guild_at_missing _ _ (wf_store_no_int_key _ guild Hwf))).
  reflexivity.
Qed.

(** On a store that did have an entry under the integer guild id,
    [add_to_playlist] would check the url before changing anything: a
    rejected url is answered with "Track not found." and nothing is changed
    or saved; an accepted url is appended as it is and the store is saved. *)
Lemma add_to_playlist_int_key A fetch guild name url b g l :
  kget (playlists b) (KInt guild) = Some g ->
  sget g name = Some l ->
  PlaylistGroup.add_to_playlist A fetch guild name url b
  = match fetch url with
    | None => (b, [Defer; FollowupSend "Track not found."], Ok tt)
    | Some track =>
        let ps := kset (playlists b) (KInt guild) (sset g name (l ++ [url])%list) in
        ({| playlists := ps; file := Some (to_json ps) |},
         [Defer;
          FollowupEmbed
            {| e_title := "Added to the playlist " ++ name;
               e_description := Sources.Track_str A track;
               e_thumbnail := if truthy_str (Sources.thumbnail A track)
                              then Sources.thumbnail A track else None |}],
         Ok tt)
    end.
Proof.
  intros Hg Hl. unfold PlaylistGroup.add_to_playlist.
  ev (emit_ok Defer b). ev (guild_at_ok _ _ _ Hg).
  unfold PyDict.contains. rewrite Hl. cbn [negb].
  destruct (fetch url) as [track|]; [|reflexivity].
  unfold append_track.
  assert (Ha : (l0 <- tracks_at (KInt guild) name ;;
                set_tracks (KInt guild) name (l0 ++ [url])%list) b
               = ({| playlists := kset (playlists b) (KInt guild) (sset g name (l ++ [url])%list);
                     file := file b |}, [], Ok tt)).
  { ev (tracks_at_ok _ _ _ _ _ Hg Hl). apply set_tracks_ok, Hg. }
  ev Ha.
  ev (save_playlists_ok {| playlists := kset (playlists b) (KInt guild) (sset g name (l ++ [url])%list);
                           file := file b |}).
  reflexivity.
Qed.

(** ** The handlers on concrete stores *)

Lemma init_started_on ps :
  wf_store ps -> PlaylistGroup.init (Some (to_json ps)) = Some (started_on ps).
Proof.
  intros H. unfold PlaylistGroup.init, PlaylistGroup.load_playlists.
  now rewrite store_json_roundtrip.
Qed.

(** C1: in a guild whose playlist "p" holds the tracks a, b, the name "p"
    passes the transformer, and [remove_from_playlist] with index 0 (which is
    not in [1, 2]) does not answer "Track not found in playlist.": it removes
    the last track, saves, and reports a removal. With index -1 it removes
    the first track, saves, and then raises [IndexError]; only with an index
    beyond the end (3) is the list left as it was, by an [IndexError] of the
    list deletion. *)
Theorem remove_index_zero_removes_last_track :
  PlaylistGroup.init (Some (to_json [(KStr "1", [("p", ["a"; "b"])])]))
  = Some (guild1 [("p", ["a"; "b"])]) /\
  outcome (PlaylistTransformer.transform 1 "p" (guild1 [("p", ["a"; "b"])])) = Ok "p" /\
  PlaylistGroup.remove_from_playlist 1 "p" 0 (guild1 [("p", ["a"; "b"])])
  = (guild1 [("p", ["a"])], [SendMessage "Removed a from the playlist p."], Ok tt) /\
  PlaylistGroup.remove_from_playlist 1 "p" (-1) (guild1 [("p", ["a"; "b"])])
  = (guild1 [("p", ["b"])], [], Raise IndexError) /\
  PlaylistGroup.remove_from_playlist 1 "p" 3 (guild1 [("p", ["a"; "b"])])
  = (guild1 [("p", ["a"; "b"])], [], Raise IndexError).
Proof. repeat split; reflexivity. Qed.

(** C2: with the valid index 1 on the tracks a, b the handler removes a and
    reports b, the track that moved to position 1; with the valid index 2 it
    removes b, saves, and raises [IndexError] instead of reporting; on a
    playlist whose only track is a it deletes the playlist, saves, and
    raises [KeyError] instead of reporting a. *)
Theorem remove_reports_the_list_after_removal :
  PlaylistGroup.remove_from_playlist 1 "p" 1 (guild1 [("p", ["a"; "b"])])
  = (guild1 [("p", ["b"])], [SendMessage "Removed b from the playlist p."], Ok tt) /\
  PlaylistGroup.remove_from_playlist 1 "p" 2 (guild1 [("p", ["a"; "b"])])
  = (guild1 [("p", ["a"])], [], Raise IndexError) /\
  PlaylistGroup.remove_from_playlist 1 "p" 1 (guild1 [("p", ["a"])])
  = (guild1 [], [], Raise (KeyError (KStr "p"))).
Proof. repeat split; reflexivity. Qed.

(** C3: after [create_playlist 1 "x"] on a fresh bot, a second
    [create_playlist 1 "x"] answers "Created playlist x." and not "Playlist
    already exists."; creating "x" again in a guild where "x" has a track
    empties it; creating "b" in a guild that has "a" leaves the guild with
    "b" alone; and a name that equals the id of a guild in the store is
    refused although the guild has no playlist of that name. *)
Theorem create_checks_guild_ids_and_replaces_guild :
  final (PlaylistGroup.create_playlist 1 "x" fresh) = guild1 [("x", [])] /\
  PlaylistGroup.create_playlist 1 "x" (guild1 [("x", [])])
  = (guild1 [("x", [])], [SendMessage "Created playlist x."], Ok tt) /\
  PlaylistGroup.create_playlist 1 "x" (guild1 [("x", ["u"])])
  = (guild1 [("x", [])], [SendMessage "Created playlist x."], Ok tt) /\
  PlaylistGroup.create_playlist 1 "b" (guild1 [("a", ["u"])])
  = (guild1 [("b", [])], [SendMessage "Created playlist b."], Ok tt) /\
  PlaylistGroup.create_playlist 2 "1" (guild1 [("a", ["u"])])
  = (guild1 [("a", ["u"])], [SendMessage "Playlist already exists."], Ok tt).
Proof. repeat split; reflexivity. Qed.

(** C4: after [create_playlist 1 "x"] on a fresh bot the guild has the
    playlist "x" and the transformer accepts the name, yet
    [delete_playlist 1 "x"] answers "Playlist does not exist." and leaves
    the store and the file as they were. *)
Theorem delete_reports_existing_playlist_missing :
  final (PlaylistGroup.create_playlist 1 "x" fresh) = guild1 [("x", [])] /\
  outcome (PlaylistTransformer.transform 1 "x" (guild1 [("x", [])])) = Ok "x" /\
  PlaylistGroup.delete_playlist 1 "x" (guild1 [("x", [])])
  = (guild1 [("x", [])], [SendMessage "Playlist does not exist."], Ok tt).
Proof. repeat split; reflexivity. Qed.

(** C5: in a guild that has the playlist "a" and no playlist "b",
    [rename_playlist 1 "a" "b"] answers "Playlist does not exist." and
    changes nothing; when the old name equals a guild id of the store the
    handler raises [KeyError] on the integer guild id, also when the new
    name is taken. *)
Theorem rename_reports_existing_playlist_missing :
  outcome (PlaylistTransformer.transform 1 "a" (guild1 [("a", ["u"])])) = Ok "a" /\
  PlaylistGroup.rename_playlist 1 "a" "b" (guild1 [("a", ["u"])])
  = (guild1 [("a", ["u"])], [SendMessage "Playlist does not exist."], Ok tt) /\
  PlaylistGroup.rename_playlist 1 "1" "b" (guild1 [("1", ["u"]); ("b", [])])
  = (guild1 [("1", ["u"]); ("b", [])], [], Raise (KeyError (KInt 1))).
Proof. repeat split; reflexivity. Qed.

(** C6: in a guild that has the playlist "p", [add_to_playlist] raises
    [KeyError] on the integer guild id right after deferring: with a url the
    resolver rejects it does not answer "Track not found.", and with a url
    the resolver accepts nothing is appended and nothing is saved. *)
Theorem add_raises_on_integer_guild_id :
  outcome (PlaylistTransformer.transform 1 "p" (guild1 [("p", [])])) = Ok "p" /\
  PlaylistGroup.add_to_playlist unit (fun _ => None) 1 "p" "https://example/a"
    (guild1 [("p", [])])
  = (guild1 [("p", [])], [Defer], Raise (KeyError (KInt 1))) /\
  PlaylistGroup.add_to_playlist unit (fun _ => Some track_a) 1 "p" "https://example/a"
    (guild1 [("p", [])])
  = (guild1 [("p", [])], [Defer], Raise (KeyError (KInt 1))).
Proof. repeat split; reflexivity. Qed.

(** C7: when guild 1 has a playlist and guild 2 has none, [list_playlist 2]
    raises [KeyError] on "2" and sends nothing. *)
Theorem list_raises_for_guild_without_entry :
  PlaylistGroup.list_playlist 2 (guild1 [("a", ["u"])])
  = (guild1 [("a", ["u"])], [], Raise (KeyError (KStr "2"))) /\
  PlaylistGroup.list_playlist 1 (guild1 [("a", ["u"])])
  = (guild1 [("a", ["u"])], [listing [(1, "a", 1%nat)]], Ok tt).
Proof. repeat split; reflexivity. Qed.

(** ** The handlers as equations *)

Lemma set_tracks_missing k name l b :
  kget (playlists b) k = None ->
  set_tracks k name l b = (b, [], Raise (KeyError k)).
Proof. intros H. unfold set_tracks. apply bind_raise, guild_at_missing, H. Qed.

Lemma del_playlist_missing_guild k name b :
  kget (playlists b) k = None ->
  del_playlist k name b = (b, [], Raise (KeyError k)).
Proof. intros H. unfold del_playlist. apply bind_raise, guild_at_missing, H. Qed.

Lemma del_playlist_missing_name k name b g :
  kget (playlists b) k = Some g -> sget g name = None ->
  del_playlist k name b = (b, [], Raise (KeyError (KStr name))).
Proof.
  intros H1 H2. unfold del_playlist. ev (guild_at_ok _ _ _ H1).
  rewrite H2. reflexivity.
Qed.

Lemma pop_playlist_ok k name b g l :
  kget (playlists b) k = Some g -> sget g name = Some l ->
  pop_playlist k name b
  = ({| playlists := kset (playlists b) k (sremove g name); file := file b |}, [], Ok l).
Proof.
  intros H1 H2. unfold pop_playlist. ev (guild_at_ok _ _ _ H1).
  rewrite H2. reflexivity.
Qed.

Lemma pop_playlist_missing_name k name b g :
  kget (playlists b) k = Some g -> sget g name = None ->
  pop_playlist k name b = (b, [], Raise (KeyError (KStr name))).
Proof.
  intros H1 H2. unfold pop_playlist. ev (guild_at_ok _ _ _ H1).
  rewrite H2. reflexivity.
Qed.

Lemma create_playlist_eq guild name b :
  PlaylistGroup.create_playlist guild name b
  = if kcontains (playlists b) (KStr name) then
      (b, [SendMessage "Playlist already exists."], Ok tt)
    else if truthy (kget (playlists b) (KInt guild)) then
      match kget (playlists b) (KStr (str_int guild)) with
      | None => (b, [], Raise (KeyError (KStr (str_int guild))))
      | Some g =>
          (started_on (kset (playlists b) (KStr (str_int guild)) (sset g name [])),
           [SendMessage ("Created playlist " ++ name ++ ".")], Ok tt)
      end
    else
      (started_on (kset (playlists b) (KStr (str_int guild)) [(name, [])]),
       [SendMessage ("Created playlist " ++ name ++ ".")], Ok tt).
Proof.
  unfold PlaylistGroup.create_playlist. cbv zeta.
  ev (get_playlists_ok b).
  destruct (kcontains (playlists b) (KStr name)); [reflexivity|].
  destruct (truthy (kget (playlists b) (KInt guild))); cbn [negb].
  - ev (ret_ok tt b).
    destruct (kget (playlists b) (KStr (str_int guild))) as [g|] eqn:G.
    + ev (set_tracks_ok _ name [] _ _ G).
      ev (save_playlists_ok {| playlists := kset (playlists b) (KStr (str_int guild)) (sset g name []);
                               file := file b |}).
      reflexivity.
    + apply bind_raise, set_tracks_missing, G.
  - ev (set_guild_ok (KStr (str_int guild)) [] b).
    set (b1 := {| playlists := _; file := file b |}).
    assert (H1 : kget (playlists b1) (KStr (str_int guild)) = Some []).
    { apply get_set_same, key_eqb_eq. }
    ev (set_tracks_ok _ name [] _ _ H1).
    cbn [playlists b1 PyDict.set]. rewrite (set_set_same _ key_eqb_eq).
    ev (save_playlists_ok {| playlists := kset (playlists b) (KStr (str_int guild)) [(name, [])];
                             file := file b1 |}).
    reflexivity.
Qed.

Lemma delete_playlist_eq guild name b :
  PlaylistGroup.delete_playlist guild name b
  = if kcontains (playlists b) (KStr name) then
      match kget (playlists b) (KStr (str_int guild)) with
      | None => (b, [], Raise (KeyError (KStr (str_int guild))))
      | Some g =>
          match sget g name with
          | None => (b, [], Raise (KeyError (KStr name)))
          | Some _ =>
              (started_on (kset (playlists b) (KStr (str_int guild)) (sremove g name)),
               [SendMessage ("Deleted playlist " ++ name ++ ".")], Ok tt)
          end
      end
    else (b, [SendMessage "Playlist does not exist."], Ok tt).
Proof.
  unfold PlaylistGroup.delete_playlist. cbv zeta.
  ev (get_playlists_ok b).
  destruct (kcontains (playlists b) (KStr name)); cbn [negb]; [|reflexivity].
  destruct (kget (playlists b) (KStr (str_int guild))) as [g|] eqn:G.
  - destruct (sget g name) as [l|] eqn:L.
    + ev (del_playlist_ok _ _ _ _ _ G L).
      ev (save_playlists_ok {| playlists := kset (playlists b) (KStr (str_int guild)) (sremove g name);
                               file := file b |}).
      reflexivity.
    + apply bind_raise, (del_playlist_missing_name _ _ _ _ G L).
  - apply bind_raise, del_playlist_missing_guild, G.
Qed.

Lemma rename_playlist_eq guild name new_name b :
  PlaylistGroup.rename_playlist guild name new_name b
  = if kcontains (playlists b) (KStr name) then
      match kget (playlists b) (KInt guild) with
      | None => (b, [], Raise (KeyError (KInt guild)))
      | Some g =>
          if scontains g new_name then
            (b, [SendMessage ("A playlist with the name " ++ new_name ++ " already exists.")],
             Ok tt)
          else
            match sget g name with
            | None => (b, [], Raise (KeyError (KStr name)))
            | Some l =>
                (started_on (kset (playlists b) (KInt guild)
                                  (sset (sremove g name) new_name l)),
                 [SendMessage ("Renamed playlist " ++ name ++ " to " ++ new_name ++ ".")],
                 Ok tt)
            end
      end
    else (b, [SendMessage "Playlist does not exist."], Ok tt).
Proof.
  unfold PlaylistGroup.rename_playlist.
  ev (get_playlists_ok b).
  destruct (kcontains (playlists b) (KStr name)); cbn [negb]; [|reflexivity].
  destruct (kget (playlists b) (KInt guild)) as [g|] eqn:G.
  2:{ apply bind_raise, guild_at_missing, G. }
  ev (guild_at_ok _ _ _ G).
  destruct (scontains g new_name); [reflexivity|].
  destruct (sget g name) as [l|] eqn:L.
  2:{ apply bind_raise, (pop_playlist_missing_name _ _ _ _ G L). }
  ev (pop_playlist_ok _ _ _ _ _ G L).
  set (b1 := {| playlists := _; file := file b |}).
  assert (H1 : kget (playlists b1) (KInt guild) = Some (sremove g name)).
  { apply get_set_same, key_eqb_eq. }
  ev (set_tracks_ok _ new_name l _ _ H1).
  cbn [playlists b1]. rewrite (set_set_same _ key_eqb_eq).
  ev (save_playlists_ok {| playlists := kset (playlists b) (KInt guild)
                                             (sset (sremove g name) new_name l);
                           file := file b1 |}).
  reflexivity.
Qed.

Lemma add_to_playlist_eq A fetch guild name url b :
  PlaylistGroup.add_to_playlist A fetch guild name url b
  = match kget (playlists b) (KInt guild) with
    | None => (b, [Defer], Raise (KeyError (KInt guild)))
    | Some g =>
        match sget g name with
        | None => (b, [Defer; FollowupSend "Playlist does not exist."], Ok tt)
        | Some l =>
            match fetch url with
            | None => (b, [Defer; FollowupSend "Track not found."], Ok tt)
            | Some track =>
                (started_on (kset (playlists b) (KInt guild) (sset g name (l ++ [url])%list)),
                 [Defer;
                  FollowupEmbed
                    {| e_title := "Added to the playlist " ++ name;
                       e_description := Sources.Track_str A track;
                       e_thumbnail := if truthy_str (Sources.thumbnail A track)
                                      then Sources.thumbnail A track else None |}],
                 Ok tt)
            end
        end
    end.
Proof.
  destruct (kget (playlists b) (KInt guild)) as [g|] eqn:G.
  - destruct (sget g name) as [l|] eqn:L.
    + now rewrite (add_to_playlist_int_key A fetch guild name url b g l G L).
    + unfold PlaylistGroup.add_to_playlist.
      ev (emit_ok Defer b). ev (guild_at_ok _ _ _ G).
      unfold PyDict.contains. rewrite L. reflexivity.
  - unfold PlaylistGroup.add_to_playlist.
    ev (emit_ok Defer b).
    rewrite (bind_raise _ _ _ _ _ _ (guild_at_missing _ _ G)). reflexivity.
Qed.

Lemma remove_from_playlist_missing_guild guild name track_id b :
  kget (playlists b) (KStr (str_int guild)) = None ->
  PlaylistGroup.remove_from_playlist guild name track_id b
  = (b, [], Raise (KeyError (KStr (str_int guild)))).
Proof.
  intros G. unfold PlaylistGroup.remove_from_playlist. cbv zeta.
  apply bind_raise, guild_at_missing, G.
Qed.

Lemma remove_from_playlist_missing_name guild name track_id b g :
  kget (playlists b) (KStr (str_int guild)) = Some g ->
  sget g name = None ->
  PlaylistGroup.remove_from_playlist guild name track_id b
  = (b, [SendMessage "Playlist does not exist."], Ok tt).
Proof.
  intros G L. unfold PlaylistGroup.remove_from_playlist. cbv zeta.
  ev (guild_at_ok _ _ _ G). unfold PyDict.contains. now rewrite L.
Qed.

Lemma list_playlist_eq guild b :
  PlaylistGroup.list_playlist guild b
  = match playlists b with
    | [] =>
        (b, [SendMessage "No saved playlists found. Create your own by with `playlist create <name>`"],
         Ok tt)
    | _ :: _ =>
        match kget (playlists b) (KStr (str_int guild)) with
        | None => (b, [], Raise (KeyError (KStr (str_int guild))))
        | Some g =>
            (b, [listing (map (fun ip => (fst ip, snd ip, count_of g (snd ip)))
                              (enumerate (PyDict.keys g) 1))], Ok tt)
        end
    end.
Proof.
  destruct (playlists b) as [|e ps] eqn:E.
  - now apply list_playlist_empty_store.
  - rewrite <- E.
    destruct (kget (playlists b) (KStr (str_int guild))) as [g|] eqn:G.
    + unfold PlaylistGroup.list_playlist. cbv zeta.
      ev (get_playlists_ok b).
      replace (nonempty (playlists b)) with true by now rewrite E.
      cbn [negb].
      ev (list_rows_ok _ _ _ G). reflexivity.
    + apply list_playlist_missing_guild; [now rewrite E|exact G].
Qed.

(** ** Effects of a command on the state *)

Lemma kget_kset_other (ps : store) k k' g :
  k <> k' -> kget (kset ps k g) k' = kget ps k'.
Proof.
  intros Hne. induction ps as [|[k0 g0] ps IH]; simpl.
  - rewrite (eqb_neq _ key_eqb_eq k' k); [reflexivity|congruence].
  - destruct (key_eqb k k0) eqn:E; simpl.
    + apply key_eqb_eq in E. subst k0.
      rewrite (eqb_neq _ key_eqb_eq k' k); [reflexivity|congruence].
    + destruct (key_eqb k' k0); [reflexivity|exact IH].
Qed.

Ltac split_cases :=
  repeat (cbv zeta;
          match goal with
          | |- context [match ?x with _ => _ end] => destruct x eqn:?
          end).

Ltac solve_effect :=
  cbv zeta; cbn [final fst];
  first [ left; reflexivity
        | right; do 2 eexists; split; [|reflexivity];
          first [left; reflexivity | right; reflexivity] ].

(** A command either leaves the state as it was, or ends in a state whose
    file holds the store, and in which one entry of the store, under a key
    of the command's guild, was written. *)
Lemma handle_effect A (c : command A) b :
  final (handle A c b) = b \/
  exists k g', own_key (guild_of c) k /\
               final (handle A c b) = started_on (kset (playlists b) k g').
Proof.
  destruct c as [g|g n|g n|g n n'|g n u r|g n i]; cbn [handle guild_of].
  - rewrite list_playlist_eq. split_cases; solve_effect.
  - rewrite create_playlist_eq. split_cases; solve_effect.
  - rewrite delete_playlist_eq. split_cases; solve_effect.
  - rewrite rename_playlist_eq. split_cases; solve_effect.
  - rewrite add_to_playlist_eq. split_cases; solve_effect.
  - destruct (kget (playlists b) (KStr (str_int g))) as [gp|] eqn:G.
    + destruct (sget gp n) as [l|] eqn:L.
      * rewrite (remove_from_playlist_present _ _ i _ _ _ G L).
        split_cases; solve_effect.
      * rewrite (remove_from_playlist_missing_name _ _ i _ _ G L). solve_effect.
    + rewrite (remove_from_playlist_missing_guild _ n i _ G). solve_effect.
Qed.

Lemma init_file_of_init f b :
  PlaylistGroup.init f = Some b -> PlaylistGroup.init (file b) = Some b.
Proof.
  unfold PlaylistGroup.init. destruct (PlaylistGroup.load_playlists f) as [ps|] eqn:E;
    simpl; [|discriminate].
  intros [= <-]. simpl. now rewrite E.
Qed.

Lemma handle_keeps_file_in_sync A (c : command A) b :
  wf_store (playlists b) ->
  PlaylistGroup.init (file b) = Some b ->
  PlaylistGroup.init (file (final (handle A c b))) = Some (final (handle A c b)).
Proof.
  intros Hwf Hb. pose proof (preserves_handle A c b Hwf) as Hwf'.
  destruct (handle_effect A c b) as [E | (k & g' & _ & E)]; rewrite E in *.
  - exact Hb.
  - cbn [started_on file]. apply init_started_on. exact Hwf'.
Qed.

Lemma reachable_in_sync A b :
  reachable A b -> PlaylistGroup.init (file b) = Some b.
Proof.
  induction 1 as [f b H | b c Hr IH].
  - eapply init_file_of_init; eauto.
  - apply handle_keeps_file_in_sync; [eapply reachable_wf; eauto | exact IH].
Qed.

(** ** Further properties of the handlers *)

(** X1: every state the bot can reach has a store whose top-level keys are
    all strings, with no key twice, and whose guilds hold no playlist name
    twice. *)
Theorem reachable_store_well_formed :
  forall A b, reachable A b ->
    Forall str_key (PyDict.keys (playlists b)) /\
    NoDup (PyDict.keys (playlists b)) /\
    Forall (fun g => NoDup (PyDict.keys g)) (PyDict.values (playlists b)).
Proof. intros A b H. exact (reachable_wf A b H). Qed.

Lemma reachable_store_well_formed_witness :
  reachable unit (final (handle unit (Create unit 7 "mix") (guild1 [("p", ["a"])]))) /\
  NoDup (PyDict.keys (playlists
           (final (handle unit (Create unit 7 "mix") (guild1 [("p", ["a"])]))))).
Proof.
  assert (H : reachable unit
                (final (handle unit (Create unit 7 "mix") (guild1 [("p", ["a"])])))).
  { apply reach_step. apply (reach_init (Some (to_json [(KStr "1", [("p", ["a"])])]))).
    reflexivity. }
  split; [exact H|].
  exact (proj1 (proj2 (reachable_store_well_formed unit _ H))).
Defined.

(** X2: in every state the bot can reach, the file holds the store that is
    in memory: a bot started on that file is in the same state. *)
Theorem reachable_restart_resumes :
  forall A b, reachable A b -> PlaylistGroup.init (file b) = Some b.
Proof. intros A b H. exact (reachable_in_sync A b H). Qed.

Lemma reachable_restart_resumes_witness :
  reachable unit (final (handle unit (Remove unit 1 "p" 1) (guild1 [("p", ["a"; "b"])]))) /\
  PlaylistGroup.init
    (file (final (handle unit (Remove unit 1 "p" 1) (guild1 [("p", ["a"; "b"])]))))
  = Some (guild1 [("p", ["b"])]).
Proof.
  assert (H : reachable unit
                (final (handle unit (Remove unit 1 "p" 1) (guild1 [("p", ["a"; "b"])])))).
  { apply reach_step.
    apply (reach_init (Some (to_json [(KStr "1", [("p", ["a"; "b"])])]))).
    reflexivity. }
  split; [exact H|].
  exact (reachable_restart_resumes unit _ H).
Defined.

(** X3: a command changes no entry of the store other than the entries of
    its own guild (under the guild id as a string or as an integer). *)
Theorem handlers_touch_only_their_guild :
  forall A (c : command A) b k,
    k <> KStr (str_int (guild_of c)) ->
    k <> KInt (guild_of c) ->
    kget (playlists (final (handle A c b))) k = kget (playlists b) k.
Proof.
  intros A c b k H1 H2.
  destruct (handle_effect A c b) as [E | (k0 & g' & Hk & E)]; rewrite E.
  - reflexivity.
  - cbn [started_on playlists]. apply kget_kset_other.
    destruct Hk as [-> | ->]; congruence.
Qed.

Lemma handlers_touch_only_their_guild_witness :
  KStr "2" <> KStr (str_int 1) /\ KStr "2" <> KInt 1 /\
  kget (playlists (final (handle unit (Create unit 1 "x")
                            (started_on [(KStr "1", [("a", ["u"])]); (KStr "2", [("b", ["v"])])]))))
       (KStr "2")
  = Some [("b", ["v"])].
Proof.
  assert (H1 : KStr "2" <> KStr (str_int 1)) by discriminate.
  assert (H2 : KStr "2" <> KInt 1) by discriminate.
  split; [exact H1|]. split; [exact H2|].
  exact (handlers_touch_only_their_guild unit (Create unit 1 "x")
           (started_on [(KStr "1", [("a", ["u"])]); (KStr "2", [("b", ["v"])])])
           (KStr "2") H1 H2).
Defined.

Lemma py_index_in_range len j :
  0 <= j < Z.of_nat len -> py_index len j = Some (Z.to_nat j).
Proof.
  intros H. unfold py_index.
  destruct (j <? 0) eqn:E; [apply Z.ltb_lt in E; lia|].
  replace (0 <=? j) with true by (symmetry; apply Z.leb_le; lia).
  replace (j <? Z.of_nat len) with true by (symmetry; apply Z.ltb_lt; lia).
  reflexivity.
Qed.

Lemma py_index_out_of_range len j :
  Z.of_nat len <= j \/ j < - Z.of_nat len -> py_index len j = None.
Proof.
  intros H. unfold py_index.
  destruct (j <? 0) eqn:E.
  - apply Z.ltb_lt in E.
    replace (0 <=? j + Z.of_nat len) with false by (symmetry; apply Z.leb_gt; lia).
    reflexivity.
  - apply Z.ltb_ge in E.
    replace (j <? Z.of_nat len) with false by (symmetry; apply Z.ltb_ge; lia).
    now rewrite andb_false_r.
Qed.

Lemma length_drop_nth {A} (l : list A) n :
  (n < List.length l)%nat -> List.length (drop_nth n l) = pred (List.length l).
Proof.
  revert n. induction l as [|x l IH]; intros n H; simpl in *; [lia|].
  destruct n as [|n]; [reflexivity|].
  simpl. rewrite IH by lia. destruct l; simpl in *; lia.
Qed.

Lemma nth_error_drop_nth {A} (l : list A) n :
  nth_error (drop_nth n l) n = nth_error l (S n).
Proof.
  revert n. induction l as [|x l IH]; intros n.
  - now destruct n.
  - destruct n as [|n]; [reflexivity|]. simpl. apply IH.
Qed.

(** X4: [remove_from_playlist] never answers "Track not found in
    playlist.", whatever the guild, the name, the index and the state. *)
Theorem remove_never_rejects_an_index :
  forall guild name track_id b,
    ~ In (SendMessage "Track not found in playlist.")
         (sent (PlaylistGroup.remove_from_playlist guild name track_id b)).
Proof.
  intros guild name i b.
  destruct (kget (playlists b) (KStr (str_int guild))) as [g|] eqn:G.
  - destruct (sget g name) as [l|] eqn:L.
    + rewrite (remove_from_playlist_present _ _ i _ _ _ G L).
      split_cases; cbn; intros H; repeat (destruct H as [H|H]);
        try discriminate H; try exact H.
    + rewrite (remove_from_playlist_missing_name _ _ i _ _ G L).
      intros [H|[]]. discriminate H.
  - rewrite (remove_from_playlist_missing_guild _ name i _ G). intros [].
Qed.

(** X5: for an index between 1 and the number of tracks of a playlist that
    holds at least two tracks, [remove_from_playlist] ends in the state in
    which that playlist lacks the track at the index and everything else is
    as before, and the file holds this store. *)
Theorem remove_valid_index_updates_store :
  forall guild name track_id b g l,
    kget (playlists b) (KStr (str_int guild)) = Some g ->
    sget g name = Some l ->
    1 <= track_id <= Z.of_nat (List.length l) ->
    (2 <= List.length l)%nat ->
    final (PlaylistGroup.remove_from_playlist guild name track_id b)
    = started_on (kset (playlists b) (KStr (str_int guild))
                       (sset g name (drop_nth (Z.to_nat (track_id - 1)) l))).
Proof.
  intros guild name i b g l G L Hi Hn.
  rewrite (remove_from_playlist_present _ _ i _ _ _ G L).
  rewrite (py_index_in_range (List.length l) (i - 1)) by lia.
  assert (Hlen : List.length (drop_nth (Z.to_nat (i - 1)) l) = pred (List.length l)).
  { apply length_drop_nth. lia. }
  destruct (drop_nth (Z.to_nat (i - 1)) l) as [|u0 l0]; [simpl in Hlen; lia|].
  split_cases; reflexivity.
Qed.

Lemma remove_valid_index_updates_store_witness :
  final (PlaylistGroup.remove_from_playlist 1 "p" 2 (guild1 [("p", ["a"; "b"; "c"])]))
  = guild1 [("p", ["a"; "c"])].
Proof.
  apply (remove_valid_index_updates_store 1 "p" 2 (guild1 [("p", ["a"; "b"; "c"])])
           [("p", ["a"; "b"; "c"])] ["a"; "b"; "c"]);
    [reflexivity | reflexivity | simpl; lia | simpl; lia].
Defined.

(** X6: for an index between 1 and the number of tracks minus one, the
    message of [remove_from_playlist] names the track that followed the
    removed one, the track at the same position of the list after the
    removal. *)
Theorem remove_reports_following_track :
  forall guild name track_id b g l,
    kget (playlists b) (KStr (str_int guild)) = Some g ->
    sget g name = Some l ->
    1 <= track_id < Z.of_nat (List.length l) ->
    exists u,
      nth_error l (Z.to_nat track_id) = Some u /\
      sent (PlaylistGroup.remove_from_playlist guild name track_id b)
      = [SendMessage ("Removed " ++ u ++ " from the playlist " ++ name ++ ".")] /\
      outcome (PlaylistGroup.remove_from_playlist guild name track_id b) = Ok tt.
Proof.
  intros guild name i b g l G L Hi.
  rewrite (remove_from_playlist_present _ _ i _ _ _ G L).
  rewrite (py_index_in_range (List.length l) (i - 1)) by lia.
  assert (Hlen : List.length (drop_nth (Z.to_nat (i - 1)) l) = pred (List.length l)).
  { apply length_drop_nth. lia. }
  assert (Hnth : nth_error (drop_nth (Z.to_nat (i - 1)) l) (Z.to_nat (i - 1))
                 = nth_error l (Z.to_nat i)).
  { rewrite nth_error_drop_nth. f_equal. lia. }
  destruct (nth_error l (Z.to_nat i)) as [u|] eqn:E.
  2:{ apply nth_error_None in E. lia. }
  exists u. split; [reflexivity|].
  destruct (drop_nth (Z.to_nat (i - 1)) l) as [|u0 l0] eqn:D; [simpl in Hlen; lia|].
  cbv zeta.
  rewrite (py_index_in_range (List.length (u0 :: l0)) (i - 1)) by (rewrite Hlen; lia).
  rewrite Hnth. split; reflexivity.
Qed.

Lemma remove_reports_following_track_witness :
  exists u,
    nth_error ["a"; "b"; "c"] (Z.to_nat 2) = Some u /\
    sent (PlaylistGroup.remove_from_playlist 1 "p" 2 (guild1 [("p", ["a"; "b"; "c"])]))
    = [SendMessage ("Removed " ++ u ++ " from the playlist " ++ "p" ++ ".")] /\
    outcome (PlaylistGroup.remove_from_playlist 1 "p" 2 (guild1 [("p", ["a"; "b"; "c"])]))
    = Ok tt.
Proof.
  apply (remove_reports_following_track 1 "p" 2 (guild1 [("p", ["a"; "b"; "c"])])
           [("p", ["a"; "b"; "c"])] ["a"; "b"; "c"]);
    [reflexivity | reflexivity | simpl; lia].
Defined.

(** X7: for an index above the number of tracks, or at most minus the number
    of tracks, [remove_from_playlist] raises [IndexError], sends nothing and
    leaves the state as it was. *)
Theorem remove_index_beyond_list_raises :
  forall guild name track_id b g l,
    kget (playlists b) (KStr (str_int guild)) = Some g ->
    sget g name = Some l ->
    Z.of_nat (List.length l) < track_id \/ track_id <= - Z.of_nat (List.length l) ->
    PlaylistGroup.remove_from_playlist guild name track_id b = (b, [], Raise IndexError).
Proof.
  intros guild name i b g l G L Hi.
  rewrite (remove_from_playlist_present _ _ i _ _ _ G L).
  rewrite (py_index_out_of_range (List.length l) (i - 1)) by lia.
  reflexivity.
Qed.

Lemma remove_index_beyond_list_raises_witness :
  PlaylistGroup.remove_from_playlist 1 "p" (-2) (guild1 [("p", ["a"; "b"])])
  = (guild1 [("p", ["a"; "b"])], [], Raise IndexError).
Proof.
  apply (remove_index_beyond_list_raises 1 "p" (-2) (guild1 [("p", ["a"; "b"])])
           [("p", ["a"; "b"])] ["a"; "b"]);
    [reflexivity | reflexivity | right; simpl; lia].
Defined.

(** X8: in a state the bot can reach, [list_playlist] for a guild that has
    an entry in the store sends one embed whose rows are the guild's
    playlists in the order of the dictionary, numbered from 1, each with its
    number of tracks; the state is unchanged. *)
Theorem list_shows_playlists_in_stored_order :
  forall A b guild g,
    reachable A b ->
    kget (playlists b) (KStr (str_int guild)) = Some g ->
    PlaylistGroup.list_playlist guild b = (b, [listing (rows_of g)], Ok tt).
Proof.
  intros A b guild g Hr G. apply list_playlist_present; [exact G|].
  eapply wf_store_get; [eapply reachable_wf; eauto | exact G].
Qed.

Lemma list_shows_playlists_in_stored_order_witness :
  reachable unit (guild1 [("b", ["u"; "v"]); ("a", [])]) /\
  PlaylistGroup.list_playlist 1 (guild1 [("b", ["u"; "v"]); ("a", [])])
  = (guild1 [("b", ["u"; "v"]); ("a", [])],
     [listing [(1, "b", 2%nat); (2, "a", 0%nat)]], Ok tt).
Proof.
  assert (H : reachable unit (guild1 [("b", ["u"; "v"]); ("a", [])])).
  { apply (reach_init (Some (to_json [(KStr "1", [("b", ["u"; "v"]); ("a", [])])]))).
    reflexivity. }
  split; [exact H|].
  apply (list_shows_playlists_in_stored_order unit
           (guild1 [("b", ["u"; "v"]); ("a", [])]) 1 [("b", ["u"; "v"]); ("a", [])] H).
  reflexivity.
Defined.

(** X9: [list_playlist] raises exactly when the store is not empty and has
    no entry for the guild; it never changes the state. *)
Theorem list_raises_iff_guild_missing_in_nonempty_store :
  forall guild b,
    ((exists e, outcome (PlaylistGroup.list_playlist guild b) = Raise e) <->
     (playlists b <> [] /\ kget (playlists b) (KStr (str_int guild)) = None)) /\
    final (PlaylistGroup.list_playlist guild b) = b.
Proof.
  intros guild b. rewrite list_playlist_eq.
  destruct (playlists b) as [|e ps] eqn:E.
  - split; [|reflexivity]. split.
    + intros [x H]. discriminate H.
    + intros [H _]. contradiction.
  - rewrite <- E. destruct (kget (playlists b) (KStr (str_int guild))) as [g|] eqn:G.
    + split; [|reflexivity]. split.
      * intros [x H]. discriminate H.
      * intros [_ H]. discriminate H.
    + split; [|reflexivity]. split.
      * intros _. split; [rewrite E; discriminate | reflexivity].
      * intros _. eexists. reflexivity.
Qed.

(** X10: in a state the bot can reach, after [create_playlist] with a name
    that is not a guild id of the store, [list_playlist] for the same guild
    shows exactly one row: the new playlist with 0 tracks. *)
Theorem create_then_list_shows_new_playlist :
  forall A b guild name,
    reachable A b ->
    kget (playlists b) (KStr name) = None ->
    PlaylistGroup.list_playlist guild (final (PlaylistGroup.create_playlist guild name b))
    = (final (PlaylistGroup.create_playlist guild name b),
       [listing [(1, name, 0%nat)]], Ok tt).
Proof.
  intros A b guild name Hr Hn.
  rewrite (create_playlist_replaces_guild guild name b (reachable_wf A b Hr) Hn).
  cbn [final fst].
  apply (list_playlist_present guild _ [(name, [])]).
  - cbn [started_on playlists]. apply get_set_same, key_eqb_eq.
  - repeat constructor. intros [].
Qed.

Lemma create_then_list_shows_new_playlist_witness :
  reachable unit (guild1 [("a", ["u"]); ("b", [])]) /\
  kget (playlists (guild1 [("a", ["u"]); ("b", [])])) (KStr "c") = None /\
  sent (PlaylistGroup.list_playlist 1
          (final (PlaylistGroup.create_playlist 1 "c" (guild1 [("a", ["u"]); ("b", [])]))))
  = [listing [(1, "c", 0%nat)]].
Proof.
  assert (H : reachable unit (guild1 [("a", ["u"]); ("b", [])])).
  { apply (reach_init (Some (to_json [(KStr "1", [("a", ["u"]); ("b", [])])]))).
    reflexivity. }
  split; [exact H|]. split; [reflexivity|].
  rewrite (create_then_list_shows_new_playlist unit
             (guild1 [("a", ["u"]); ("b", [])]) 1 "c" H eq_refl).
  reflexivity.
Defined.

(** X11: in a state the bot can reach, after [create_playlist] with a name
    that is neither a guild id of the store nor the decimal string of the
    guild's own id, [delete_playlist] for that guild and name answers
    "Playlist does not exist." and leaves the playlist in place. *)
Theorem create_then_delete_reports_missing :
  forall A b guild name,
    reachable A b ->
    kget (playlists b) (KStr name) = None ->
    name <> str_int guild ->
    PlaylistGroup.delete_playlist guild name
      (final (PlaylistGroup.create_playlist guild name b))
    = (final (PlaylistGroup.create_playlist guild name b),
       [SendMessage "Playlist does not exist."], Ok tt).
Proof.
  intros A b guild name Hr Hn Hne.
  rewrite (create_playlist_replaces_guild guild name b (reachable_wf A b Hr) Hn).
  cbn [final fst].
  apply delete_playlist_not_a_guild_id. cbn [started_on playlists].
  rewrite kget_kset_other; [exact Hn | congruence].
Qed.

Lemma create_then_delete_reports_missing_witness :
  reachable unit fresh /\
  kget (playlists fresh) (KStr "road-trip") = None /\
  "road-trip" <> str_int 42 /\
  PlaylistGroup.delete_playlist 42 "road-trip"
    (final (PlaylistGroup.create_playlist 42 "road-trip" fresh))
  = (started_on [(KStr "42", [("road-trip", [])])],
     [SendMessage "Playlist does not exist."], Ok tt).
Proof.
  assert (H : reachable unit fresh) by (apply (reach_init None); reflexivity).
  assert (Hne : "road-trip" <> str_int 42) by discriminate.
  split; [exact H|]. split; [reflexivity|]. split; [exact Hne|].
  exact (create_then_delete_reports_missing unit fresh 42 "road-trip" H eq_refl Hne).
Defined.

(** X12: [delete_playlist] answers "Deleted playlist ..." exactly when the
    name is a key of the top-level dictionary (a guild id) and the guild has
    a playlist of that name. *)
Theorem delete_succeeds_iff_name_is_guild_id_and_playlist :
  forall guild name b,
    sent (PlaylistGroup.delete_playlist guild name b)
    = [SendMessage ("Deleted playlist " ++ name ++ ".")]
    <->
    (kcontains (playlists b) (KStr name) = true /\
     exists g l, kget (playlists b) (KStr (str_int guild)) = Some g /\
                 sget g name = Some l).
Proof.
  intros guild name b. rewrite delete_playlist_eq.
  destruct (kcontains (playlists b) (KStr name)).
  - destruct (kget (playlists b) (KStr (str_int guild))) as [g|].
    + destruct (sget g name) as [l|] eqn:L.
      * split; [|reflexivity]. intros _. split; [reflexivity|]. now exists g, l.
      * split; [discriminate|]. intros [_ (g0 & l0 & [= <-] & H)]. congruence.
    + split; [discriminate|]. intros [_ (g0 & l0 & H & _)]. discriminate H.
  - split; [discriminate|]. intros [H _]. discriminate H.
Qed.

(** X13: in a state the bot can reach, [rename_playlist] never renames: it
    leaves the state as it was and either answers "Playlist does not
    exist." or raises [KeyError] on the integer guild id. *)
Theorem rename_changes_no_reachable_state :
  forall A b guild name new_name,
    reachable A b ->
    PlaylistGroup.rename_playlist guild name new_name b
    = (b, [SendMessage "Playlist does not exist."], Ok tt) \/
    PlaylistGroup.rename_playlist guild name new_name b
    = (b, [], Raise (KeyError (KInt guild))).
Proof.
  intros A b guild name new_name Hr.
  rewrite (rename_playlist_string_keys guild name new_name b (reachable_wf A b Hr)).
  destruct (kcontains (playlists b) (KStr name)); [right|left]; reflexivity.
Qed.

Lemma rename_changes_no_reachable_state_witness :
  reachable unit (guild1 [("a", ["u"])]) /\
  final (PlaylistGroup.rename_playlist 1 "a" "b" (guild1 [("a", ["u"])]))
  = guild1 [("a", ["u"])].
Proof.
  assert (H : reachable unit (guild1 [("a", ["u"])])).
  { apply (reach_init (Some (to_json [(KStr "1", [("a", ["u"])])]))). reflexivity. }
  split; [exact H|].
  destruct (rename_changes_no_reachable_state unit (guild1 [("a", ["u"])]) 1 "a" "b" H)
    as [E|E]; rewrite E; reflexivity.
Defined.

(** X14: in a state the bot can reach, [add_to_playlist] defers, raises
    [KeyError] on the integer guild id and leaves the state as it was,
    whatever the resolver answers. *)
Theorem add_changes_no_reachable_state :
  forall A b T fetch guild name url,
    reachable A b ->
    PlaylistGroup.add_to_playlist T fetch guild name url b
    = (b, [Defer], Raise (KeyError (KInt guild))).
Proof.
  intros A b T fetch guild name url Hr.
  apply add_to_playlist_string_keys. eapply reachable_wf; eauto.
Qed.

Lemma add_changes_no_reachable_state_witness :
  reachable unit (guild1 [("p", ["u"])]) /\
  PlaylistGroup.add_to_playlist unit (fun _ => Some track_a) 1 "p" "https://example/a"
    (guild1 [("p", ["u"])])
  = (guild1 [("p", ["u"])], [Defer], Raise (KeyError (KInt 1))).
Proof.
  assert (H : reachable unit (guild1 [("p", ["u"])])).
  { apply (reach_init (Some (to_json [(KStr "1", [("p", ["u"])])]))). reflexivity. }
  split; [exact H|].
  exact (add_changes_no_reachable_state unit (guild1 [("p", ["u"])]) unit
           (fun _ => Some track_a) 1 "p" "https://example/a" H).
Defined.

(** ** A bot started without a file *)

Lemma length_remove_le (g : guild_playlists) name :
  (List.length (sremove g name) <= List.length g)%nat.
Proof.
  induction g as [|[n l] g IH]; simpl; [lia|].
  destruct (String.eqb name n); simpl; lia.
Qed.

Lemma bare_guild_remove g name : bare_guild g -> bare_guild (sremove g name).
Proof.
  intros [H1 H2]. split.
  - pose proof (length_remove_le g name). lia.
  - rewrite Forall_forall in *. intros e He. apply H2.
    eapply remove_subset; eauto.
Qed.

Lemma bare_store_get ps k g :
  bare_store ps -> kget ps k = Some g -> bare_guild g.
Proof.
  intros H E. apply get_Some_in in E; [|apply key_eqb_eq].
  unfold bare_store in H. rewrite Forall_forall in H. apply H.
  unfold PyDict.values. change g with (snd (k, g)). now apply in_map.
Qed.

Lemma bare_guild_tracks g name l :
  bare_guild g -> sget g name = Some l -> l = [].
Proof.
  intros [_ H] E. apply get_Some_in in E; [|apply String.eqb_eq].
  rewrite Forall_forall in H. exact (H _ E).
Qed.

Lemma list_playlist_final guild b :
  final (PlaylistGroup.list_playlist guild b) = b.
Proof. rewrite list_playlist_eq. split_cases; reflexivity. Qed.

Lemma handle_keeps_bare A (c : command A) b :
  wf_store (playlists b) -> bare_store (playlists b) ->
  bare_store (playlists (final (handle A c b))).
Proof.
  intros Hwf Hb.
  destruct c as [g|g n|g n|g n n'|g n u r|g n i]; cbn [handle].
  - rewrite list_playlist_final. exact Hb.
  - rewrite create_playlist_eq, (wf_store_no_int_key _ g Hwf). cbn [truthy].
    destruct (kcontains (playlists b) (KStr n)); [exact Hb|].
    cbn [final fst started_on playlists]. apply values_set_Forall; [exact Hb|].
    split; [simpl; lia | repeat constructor].
  - rewrite delete_playlist_eq.
    destruct (kcontains (playlists b) (KStr n)); [|exact Hb].
    destruct (kget (playlists b) (KStr (str_int g))) as [gp|] eqn:G; [|exact Hb].
    destruct (sget gp n); [|exact Hb].
    cbn [final fst started_on playlists]. apply values_set_Forall; [exact Hb|].
    apply bare_guild_remove. eapply bare_store_get; eauto.
  - rewrite (rename_playlist_string_keys g n n' b Hwf).
    destruct (kcontains (playlists b) (KStr n)); exact Hb.
  - rewrite (add_to_playlist_string_keys A (fun _ => r) g n u b Hwf). exact Hb.
  - destruct (kget (playlists b) (KStr (str_int g))) as [gp|] eqn:G.
    + destruct (sget gp n) as [l|] eqn:L.
      * rewrite (remove_from_playlist_present _ _ i _ _ _ G L).
        rewrite (bare_guild_tracks gp n l (bare_store_get _ _ _ Hb G) L).
        rewrite (py_index_out_of_range (List.length (@nil string)) (i - 1))
          by (simpl; lia).
        exact Hb.
      * rewrite (remove_from_playlist_missing_name _ _ i _ _ G L). exact Hb.
    + rewrite (remove_from_playlist_missing_guild _ n i _ G). exact Hb.
Qed.

Lemma run_keeps_bare A (cs : list (command A)) b :
  wf_store (playlists b) -> bare_store (playlists b) ->
  bare_store (playlists (run cs b)).
Proof.
  revert b. induction cs as [|c cs IH]; intros b Hwf Hb; [exact Hb|].
  simpl. apply IH; [now apply preserves_handle | now apply handle_keeps_bare].
Qed.

(** X15: a bot that starts without a file never stores a track and never
    holds two playlists in one guild, whatever commands it handles: in the
    state after any sequence of commands every guild has at most one
    playlist and every playlist is empty. *)
Theorem fresh_bot_never_stores_a_track :
  forall A (cs : list (command A)) k g,
    kget (playlists (run cs fresh)) k = Some g ->
    (List.length g <= 1)%nat /\
    forall name l, sget g name = Some l -> l = [].
Proof.
  intros A cs k g G.
  assert (Hb : bare_store (playlists (run cs fresh))).
  { apply run_keeps_bare; [repeat split; constructor | constructor]. }
  pose proof (bare_store_get _ _ _ Hb G) as Hg.
  split; [exact (proj1 Hg)|].
  intros name l L. eapply bare_guild_tracks; eauto.
Qed.

Lemma fresh_bot_never_stores_a_track_witness :
  kget (playlists (run [Create unit 1 "a"; Add unit 1 "a" "u" (Some track_a);
                        Create unit 1 "b"; Remove unit 1 "b" 1] fresh))
       (KStr "1") = Some [("b", [])] /\
  (List.length [("b", @nil string)] <= 1)%nat.
Proof.
  split; [reflexivity|].
  exact (proj1 (fresh_bot_never_stores_a_track unit
                  [Create unit 1 "a"; Add unit 1 "a" "u" (Some track_a);
                   Create unit 1 "b"; Remove unit 1 "b" 1]
                  (KStr "1") [("b", [])] eq_refl)).
Defined.

(** ** add_to_playlist and the resolver *)

(** X16: when the resolver rejects the url, [add_to_playlist] leaves the
    store and the file as they were, in every state. *)
Theorem add_rejected_url_changes_nothing :
  forall T (fetch : string -> option (Sources.Track T)) guild name url b,
    fetch url = None ->
    final (PlaylistGroup.add_to_playlist T fetch guild name url b) = b.
Proof.
  intros T fetch guild name url b H. rewrite add_to_playlist_eq, H.
  split_cases; reflexivity.
Qed.

Lemma add_rejected_url_changes_nothing_witness :
  final (PlaylistGroup.add_to_playlist unit (fun _ => None) 1 "p" "nowhere"
           {| playlists := [(KInt 1, [("p", ["u"])])]; file := None |})
  = {| playlists := [(KInt 1, [("p", ["u"])])]; file := None |}.
Proof.
  apply (add_rejected_url_changes_nothing unit (fun _ => None) 1 "p" "nowhere"
           {| playlists := [(KInt 1, [("p", ["u"])])]; file := None |}).
  reflexivity.
Defined.

(** X17: in a state whose store has the guild under its integer id, with
    the playlist present, a url the resolver accepts is appended as it is
    at the end of the playlist, the store is saved, and the embed carries
    the text of the resolved track. *)
Theorem add_accepted_url_appends_raw_url :
  forall T (fetch : string -> option (Sources.Track T)) guild name url b g l track,
    kget (playlists b) (KInt guild) = Some g ->
    sget g name = Some l ->
    fetch url = Some track ->
    PlaylistGroup.add_to_playlist T fetch guild name url b
    = (started_on (kset (playlists b) (KInt guild) (sset g name (l ++ [url])%list)),
       [Defer;
        FollowupEmbed
          {| e_title := "Added to the playlist " ++ name;
             e_description := Sources.Track_str T track;
             e_thumbnail := if truthy_str (Sources.thumbnail T track)
                            then Sources.thumbnail T track else None |}],
       Ok tt).
Proof.
  intros T fetch guild name url b g l track G L F.
  now rewrite add_to_playlist_eq, G, L, F.
Qed.

Lemma add_accepted_url_appends_raw_url_witness :
  final (PlaylistGroup.add_to_playlist unit (fun _ => Some track_a) 1 "p" "https://example/a?x=1"
           {| playlists := [(KInt 1, [("p", ["u"])])]; file := None |})
  = started_on [(KInt 1, [("p", ["u"; "https://example/a?x=1"])])].
Proof.
  rewrite (add_accepted_url_appends_raw_url unit (fun _ => Some track_a) 1 "p"
             "https://example/a?x=1"
             {| playlists := [(KInt 1, [("p", ["u"])])]; file := None |}
             [("p", ["u"])] ["u"] track_a eq_refl eq_refl eq_refl).
  reflexivity.
Defined.

(** ** PlaylistTransformer *)

Lemma transform_eq guild value b :
  PlaylistTransformer.transform guild value b
  = (b, [],
     match kget (playlists b) (KStr (str_int guild)) with
     | Some g =>
         match sget g value with
         | Some _ => Ok value
         | None => Raise (AppCommandError ("Playlist '" ++ value ++ "' does not exist."))
         end
     | None => Raise (AppCommandError ("Playlist '" ++ value ++ "' does not exist."))
     end).
Proof.
  unfold PlaylistTransformer.transform. cbv zeta.
  ev (get_playlists_ok b). unfold PyDict.contains at 1.
  destruct (kget (playlists b) (KStr (str_int guild))) as [g|] eqn:G; [|reflexivity].
  ev (guild_at_ok _ _ _ G). unfold PyDict.contains.
  destruct (sget g value); reflexivity.
Qed.

(** X18: [transform] returns the name exactly when the store has an entry
    for the guild (under the guild id as a string) that holds a playlist of
    that name; otherwise it raises [AppCommandError]; it sends nothing and
    leaves the state as it was. *)
Theorem transform_accepts_exactly_existing_names :
  forall guild value b,
    (outcome (PlaylistTransformer.transform guild value b) = Ok value <->
     exists g l, kget (playlists b) (KStr (str_int guild)) = Some g /\
                 sget g value = Some l) /\
    (outcome (PlaylistTransformer.transform guild value b) = Ok value \/
     outcome (PlaylistTransformer.transform guild value b)
     = Raise (AppCommandError ("Playlist '" ++ value ++ "' does not exist."))) /\
    final (PlaylistTransformer.transform guild value b) = b /\
    sent (PlaylistTransformer.transform guild value b) = [].
Proof.
  intros guild value b. rewrite transform_eq. cbn [outcome final sent fst snd].
  destruct (kget (playlists b) (KStr (str_int guild))) as [g|] eqn:G.
  - destruct (sget g value) as [l|] eqn:L.
    + repeat split; auto. intros _. now exists g, l.
    + repeat split; auto; try discriminate.
      intros (g0 & l0 & [= <-] & H). congruence.
  - repeat split; auto; try discriminate.
    intros (g0 & l0 & H & _). discriminate H.
Qed.

Lemma autocomplete_eq lower guild current b :
  PlaylistTransformer.autocomplete lower guild current b
  = (b, [],
     Ok match kget (playlists b) (KStr (str_int guild)) with
        | None => []
        | Some g =>
            map (fun name => {| PlaylistTransformer.c_name := name;
                                PlaylistTransformer.c_value := name |})
                (filter (fun name => is_substring (lower current) (lower name))
                        (PyDict.keys g))
        end).
Proof.
  unfold PlaylistTransformer.autocomplete. cbv zeta.
  ev (get_playlists_ok b). unfold PyDict.contains.
  destruct (kget (playlists b) (KStr (str_int guild))) as [g|] eqn:G; cbn [negb].
  - ev (guild_at_ok _ _ _ G). reflexivity.
  - reflexivity.
Qed.

(** X19: [autocomplete] never raises and never changes the state; for a
    guild without an entry it returns no choice; every choice it returns
    has the same name and value, which is a playlist name of the guild that
    contains the typed text when both are put in lower case. *)
Theorem autocomplete_suggests_only_matching_playlists :
  forall lower guild current b,
    exists cs,
      PlaylistTransformer.autocomplete lower guild current b = (b, [], Ok cs) /\
      (kget (playlists b) (KStr (str_int guild)) = None -> cs = []) /\
      forall c, In c cs ->
        PlaylistTransformer.c_name c = PlaylistTransformer.c_value c /\
        is_substring (lower current) (lower (PlaylistTransformer.c_value c)) = true /\
        exists g, kget (playlists b) (KStr (str_int guild)) = Some g /\
                  In (PlaylistTransformer.c_value c) (PyDict.keys g).
Proof.
  intros lower guild current b. eexists. split; [apply autocomplete_eq|].
  destruct (kget (playlists b) (KStr (str_int guild))) as [g|].
  - split; [discriminate|]. intros c Hc.
    apply in_map_iff in Hc. destruct Hc as (n & <- & Hn).
    apply filter_In in Hn. destruct Hn as [Hin Hsub]. simpl.
    repeat split; auto. now exists g.
  - split; [reflexivity|]. intros c [].
Qed.

Lemma is_substring_empty b : is_substring "" b = true.
Proof. destruct b; reflexivity. Qed.

Lemma filter_all {A} (f : A -> bool) l :
  (forall x, f x = true) -> filter f l = l.
Proof.
  intros H. induction l as [|x l IH]; simpl; [reflexivity|].
  now rewrite H, IH.
Qed.

(** X20: when nothing is typed, [autocomplete] offers every playlist of the
    guild, in the order of the guild's dictionary. *)
Theorem autocomplete_empty_text_offers_all :
  forall lower guild b g,
    lower "" = "" ->
    kget (playlists b) (KStr (str_int guild)) = Some g ->
    PlaylistTransformer.autocomplete lower guild "" b
    = (b, [], Ok (map (fun name => {| PlaylistTransformer.c_name := name;
                                       PlaylistTransformer.c_value := name |})
                      (PyDict.keys g))).
Proof.
  intros lower guild b g Hl G. rewrite autocomplete_eq, G, Hl.
  rewrite filter_all; [reflexivity|]. intros x. apply is_substring_empty.
Qed.

Lemma autocomplete_empty_text_offers_all_witness :
  PlaylistTransformer.autocomplete (fun s => s) 1 "" (guild1 [("Rock", ["u"]); ("jazz", [])])
  = (guild1 [("Rock", ["u"]); ("jazz", [])], [],
     Ok [{| PlaylistTransformer.c_name := "Rock"; PlaylistTransformer.c_value := "Rock" |};
         {| PlaylistTransformer.c_name := "jazz"; PlaylistTransformer.c_value := "jazz" |}]).
Proof.
  apply (autocomplete_empty_text_offers_all (fun s => s) 1
           (guild1 [("Rock", ["u"]); ("jazz", [])]) [("Rock", ["u"]); ("jazz", [])]);
    reflexivity.
Defined.

(** ** Answers *)

Ltac solve_answer :=
  cbn;
  first [ left; eexists; split; reflexivity
        | right; eexists; split; reflexivity ].

(** X21: a command either returns after exactly one message on the
    interaction, or raises after none ([defer] of [add_to_playlist] apart):
    no handler answers twice, and none answers before it raises. *)
Theorem handler_answers_once_or_raises :
  forall A (c : command A) b,
    (exists e, answers (sent (handle A c b)) = [e] /\ outcome (handle A c b) = Ok tt) \/
    (exists x, outcome (handle A c b) = Raise x /\ answers (sent (handle A c b)) = []).
Proof.
  intros A c b.
  destruct c as [g|g n|g n|g n n'|g n u r|g n i]; cbn [handle].
  - rewrite list_playlist_eq. split_cases; solve_answer.
  - rewrite create_playlist_eq. split_cases; solve_answer.
  - rewrite delete_playlist_eq. split_cases; solve_answer.
  - rewrite rename_playlist_eq. split_cases; solve_answer.
  - rewrite add_to_playlist_eq. split_cases; solve_answer.
  - destruct (kget (playlists b) (KStr (str_int g))) as [gp|] eqn:G.
    + destruct (sget gp n) as [l|] eqn:L.
      * rewrite (remove_from_playlist_present _ _ i _ _ _ G L).
        split_cases; solve_answer.
      * rewrite (remove_from_playlist_missing_name _ _ i _ _ G L). solve_answer.
    + rewrite (remove_from_playlist_missing_guild _ n i _ G). solve_answer.
Qed.

(** ** Track and Playlist *)

(** X22: the [length] property of a [Playlist] raises [TypeError] for every
    playlist, and so does [__str__], which reads it. *)
Theorem playlist_length_always_raises :
  forall A (p : Sources.Playlist A),
    Sources.Playlist_length A p = inl (TypeError "'int' object is not iterable") /\
    Sources.Playlist_str A p = inl (TypeError "'int' object is not iterable").
Proof. intros A p. split; reflexivity. Qed.

Lemma py_sum_durations A (l : list (Sources.Track A)) :
  py_sum (map (Sources.duration A) l) = total_duration l.
Proof.
  induction l as [|x l IH]; [reflexivity|].
  simpl map. rewrite py_sum_cons, IH. reflexivity.
Qed.

Lemma total_duration_app A (l1 l2 : list (Sources.Track A)) :
  total_duration (l1 ++ l2)%list = total_duration l1 + total_duration l2.
Proof. induction l1 as [|x l1 IH]; simpl; [reflexivity|]. rewrite IH. lia. Qed.

(** X23: the duration of a playlist whose tracks are two lists one after
    the other is the sum of the durations of the two parts. *)
Theorem playlist_duration_of_concatenation :
  forall A t u (l1 l2 : list (Sources.Track A)),
    Sources.Playlist_duration A
      {| Sources.p_title := t; Sources.p_webpage_url := u; Sources.tracks := (l1 ++ l2)%list |}
    = Sources.Playlist_duration A
        {| Sources.p_title := t; Sources.p_webpage_url := u; Sources.tracks := l1 |}
      + Sources.Playlist_duration A
          {| Sources.p_title := t; Sources.p_webpage_url := u; Sources.tracks := l2 |}.
Proof.
  intros A t u l1 l2. unfold Sources.Playlist_duration. simpl.
  rewrite !py_sum_durations. apply total_duration_app.
Qed.

(** X24: the duration of a playlist does not depend on the order of its
    tracks. *)
Theorem playlist_duration_ignores_order :
  forall A (p q : Sources.Playlist A),
    Permutation (Sources.tracks A p) (Sources.tracks A q) ->
    Sources.Playlist_duration A p = Sources.Playlist_duration A q.
Proof.
  intros A p q H. unfold Sources.Playlist_duration. rewrite !py_sum_durations.
  induction H; simpl; lia.
Qed.

Lemma playlist_duration_ignores_order_witness :
  Sources.Playlist_duration unit
    {| Sources.p_title := "x"; Sources.p_webpage_url := "w";
       Sources.tracks := [track_a;
                          {| Sources.title := "B"; Sources.duration := 5;
                             Sources.webpage_url := "b"; Sources.audio_url := tt;
                             Sources.thumbnail := None |}] |}
  = Sources.Playlist_duration unit
      {| Sources.p_title := "y"; Sources.p_webpage_url := "v";
         Sources.tracks := [{| Sources.title := "B"; Sources.duration := 5;
                               Sources.webpage_url := "b"; Sources.audio_url := tt;
                               Sources.thumbnail := None |};
                            track_a] |}.
Proof.
  apply playlist_duration_ignores_order. simpl. apply perm_swap.
Defined.

(** X25: when no track has a negative duration, the duration of the
    playlist is not negative. *)
Theorem playlist_duration_nonnegative :
  forall A (p : Sources.Playlist A),
    Forall (fun t => 0 <= Sources.duration A t) (Sources.tracks A p) ->
    0 <= Sources.Playlist_duration A p.
Proof.
  intros A p H. unfold Sources.Playlist_duration. rewrite py_sum_durations.
  induction H; simpl; lia.
Qed.

Lemma playlist_duration_nonnegative_witness :
  0 <= Sources.Playlist_duration unit
         {| Sources.p_title := "x"; Sources.p_webpage_url := "w";
            Sources.tracks := [track_a; track_a] |}.
Proof.
  apply playlist_duration_nonnegative. simpl.
  repeat constructor; simpl; lia.
Defined.

(** ** Compositions *)

(** X26: in a state the bot can reach, creating a playlist twice (with a
    name that is not a guild id of the store) leaves the state that
    creating it once leaves. *)
Theorem create_twice_is_create_once :
  forall A b guild name,
    reachable A b ->
    kget (playlists b) (KStr name) = None ->
    final (PlaylistGroup.create_playlist guild name
             (final (PlaylistGroup.create_playlist guild name b)))
    = final (PlaylistGroup.create_playlist guild name b).
Proof.
  intros A b guild name Hr Hn.
  pose proof (reachable_wf A b Hr) as Hwf.
  rewrite (create_playlist_replaces_guild guild name b Hwf Hn). cbn [final fst].
  set (b1 := started_on (kset (playlists b) (KStr (str_int guild)) [(name, [])])).
  assert (Hwf1 : wf_store (playlists b1)).
  { cbn [b1 started_on playlists]. apply wf_store_new; [exact Hwf|].
    repeat constructor. intros []. }
  rewrite create_playlist_eq, (wf_store_no_int_key _ guild Hwf1). cbn [truthy].
  destruct (kcontains (playlists b1) (KStr name)); [reflexivity|].
  cbn [final fst b1 started_on playlists].
  now rewrite (set_set_same _ key_eqb_eq).
Qed.

Lemma create_twice_is_create_once_witness :
  reachable unit (guild1 [("a", ["u"])]) /\
  final (PlaylistGroup.create_playlist 1 "x"
           (final (PlaylistGroup.create_playlist 1 "x" (guild1 [("a", ["u"])]))))
  = guild1 [("x", [])].
Proof.
  assert (H : reachable unit (guild1 [("a", ["u"])])).
  { apply (reach_init (Some (to_json [(KStr "1", [("a", ["u"])])]))). reflexivity. }
  split; [exact H|].
  rewrite (create_twice_is_create_once unit (guild1 [("a", ["u"])]) 1 "x" H eq_refl).
  reflexivity.
Defined.

(** X27: when [delete_playlist] finds the name among the keys of the
    top-level dictionary and the guild has the playlist, the playlist is
    removed from the guild (the other playlists stay), the store is saved,
    and [transform] then rejects the name. *)
Theorem delete_success_removes_playlist :
  forall guild name b g l,
    kcontains (playlists b) (KStr name) = true ->
    kget (playlists b) (KStr (str_int guild)) = Some g ->
    sget g name = Some l ->
    PlaylistGroup.delete_playlist guild name b
    = (started_on (kset (playlists b) (KStr (str_int guild)) (sremove g name)),
       [SendMessage ("Deleted playlist " ++ name ++ ".")], Ok tt) /\
    outcome (PlaylistTransformer.transform guild name
               (final (PlaylistGroup.delete_playlist guild name b)))
    = Raise (AppCommandError ("Playlist '" ++ name ++ "' does not exist.")).
Proof.
  intros guild name b g l Hc G L.
  assert (E : PlaylistGroup.delete_playlist guild name b
              = (started_on (kset (playlists b) (KStr (str_int guild)) (sremove g name)),
                 [SendMessage ("Deleted playlist " ++ name ++ ".")], Ok tt)).
  { now rewrite delete_playlist_eq, Hc, G, L. }
  split; [exact E|]. rewrite E. cbn [final fst].
  rewrite transform_eq. cbn [outcome snd started_on playlists].
  rewrite (get_set_same _ key_eqb_eq), (get_remove_same _ String.eqb_eq).
  reflexivity.
Qed.

Lemma delete_success_removes_playlist_witness :
  final (PlaylistGroup.delete_playlist 1 "1" (guild1 [("1", ["u"]); ("a", [])]))
  = guild1 [("a", [])].
Proof.
  rewrite (proj1 (delete_success_removes_playlist 1 "1"
                    (guild1 [("1", ["u"]); ("a", [])])
                    [("1", ["u"]); ("a", [])] ["u"] eq_refl eq_refl eq_refl)).
  reflexivity.
Defined.



(** X29: no command removes an entry of the top-level dictionary: a guild
    that has an entry keeps one, also when its last playlist is deleted. *)
Theorem guild_entries_are_never_removed :
  forall A (c : command A) b k g,
    kget (playlists b) k = Some g ->
    exists g', kget (playlists (final (handle A c b))) k = Some g'.
Proof.
  intros A c b k g G.
  destruct (handle_effect A c b) as [E | (k0 & g' & _ & E)]; rewrite E.
  - now exists g.
  - cbn [started_on playlists].
    destruct (key_eqb k0 k) eqn:K.
    + apply key_eqb_eq in K. subst k0. exists g'. apply get_set_same, key_eqb_eq.
    + exists g. rewrite kget_kset_other; [exact G|].
      intros ->. rewrite (eqb_refl _ key_eqb_eq) in K. discriminate K.
Qed.

Lemma guild_entries_are_never_removed_witness :
  exists g', kget (playlists (final (handle unit (Remove unit 1 "p" 1) (guild1 [("p", ["a"])]))))
                  (KStr "1") = Some g'.
Proof.
  apply (guild_entries_are_never_removed unit (Remove unit 1 "p" 1)
           (guild1 [("p", ["a"])]) (KStr "1") [("p", ["a"])]).
  reflexivity.
Defined.
